(** * The scheduler of [scheduler/core.py]: tick selection, registration,
      tag queries and deletion

    A shallow embedding of the class [Scheduler] and of the module-level
    helpers of [scheduler/core.py].  Python objects live in a store: a job
    is a reference into [jobs_mem], a [set] object a reference into
    [sets_mem], so that two names for one set (the constructor keeps the
    caller's set, [get_jobs] hands out a new one) are told apart.

    Idealisations, stated once:
    - [float] values (priorities, weights, [total_seconds()]) are exact
      rationals ([Qc]); there is no NaN and no rounding;
    - an instant is an integer number of microseconds, the resolution of
      [datetime];
    - a callback is opaque: invoking it is recorded in the store's call log;
      it returns or raises, as [callback_raises] says for the job it belongs
      to, and it does not call back into the scheduler; its payload
      ([argument], [kwargs]) is left out;
    - jobs are hashed and compared by identity (a reference);
    - worker threads are run one after the other (one admissible
      interleaving); a call that waits for ever ([que.join()] after a worker
      died) has the outcome [Hang]; [n_threads] is a natural number, the
      documented domain ("0 for unlimited, default 1"). *)

From Stdlib Require Import ZArith QArith Qcanon Lia.
From stdpp Require Import sorting numbers strings fin_sets gmap list.

Local Open Scope Z_scope.
Set Warnings "-register-all,-clear-no-such-hyp".

(** ** Values of the [datetime] module *)

(** [tzinfo]: [None] is a naive value, [Some off] the fixed-offset zone
    [dt.timezone(dt.timedelta(minutes=off))]; zones compare by offset. *)
Definition tzinfo := option Z.

Record datetime := Datetime {
  dt_instant : Z;          (* microseconds on the zone's own time line *)
  dt_tzinfo : tzinfo }.

Record time := Time {
  t_micros : Z;            (* microseconds since midnight *)
  t_tzinfo : tzinfo }.

(** [timedelta.total_seconds()]: the microsecond count over 10^6. *)
Definition total_seconds (us : Z) : Qc := Q2Qc (us # 1000000).

(** ** Timing values handed to the registration methods *)

Inductive Weekday :=
  Monday | Tuesday | Wednesday | Thursday | Friday | Saturday | Sunday.

(** The Python values a caller can pass as [timing]. *)
Inductive pyvalue :=
  | PyTimedelta (us : Z)
  | PyTime (t : time)
  | PyDatetime (d : datetime)
  | PyWeekday (d : Weekday)       (* an instance of Trigger.Weekly.<d> *)
  | PyList (l : list pyvalue)
  | PyTuple (l : list pyvalue)
  | PyOther (repr : string).      (* any other object *)

(** [type(v)], as far as [JOB_TYPE_MAPPING] tells types apart. *)
Inductive pytype :=
  | TyTimedelta | TyTime | TyDatetime | TyWeekday (d : Weekday)
  | TyList | TyTuple | TyOther.

Definition type_of (v : pyvalue) : pytype :=
  match v with
  | PyTimedelta _ => TyTimedelta
  | PyTime _ => TyTime
  | PyDatetime _ => TyDatetime
  | PyWeekday d => TyWeekday d
  | PyList _ => TyList
  | PyTuple _ => TyTuple
  | PyOther _ => TyOther
  end.

Definition isinstance_list (v : pyvalue) : bool :=
  match v with PyList _ => true | _ => false end.

Definition isinstance_datetime (v : pyvalue) : bool :=
  match v with PyDatetime _ => true | _ => false end.

Inductive JobType := CYCLIC | MINUTELY | HOURLY | DAILY | WEEKLY.

(** The dictionary [JOB_TYPE_MAPPING]; [None] is a missing key. *)
Definition JOB_TYPE_MAPPING (ty : pytype) : option JobType :=
  match ty with
  | TyTimedelta => Some CYCLIC
  | TyTime => Some DAILY
  | TyWeekday _ => Some WEEKLY
  | _ => None
  end.

Definition ONCE_TYPE_ERROR_MSG : string :=
  String.append
    "Wrong input for Once! Select one of the following input types:
"
    "dt.datetime | dt.timedelta | Weekday | dt.time".

(** The type aliases of [scheduler.job] that [typeguard.check_type] is
    called with. *)
Inductive TimingAlias :=
  TimingCyclic | TimingDailyUnion | TimingWeeklyUnion | TimingOnceUnion.

(** ** Jobs *)

(** The keyword arguments of [Job.__init__] that the scheduler passes on. *)
Record JobKwargs := MkKwargs {
  kw_max_attempts : Z;
  kw_tags : gset string;
  kw_weight : Qc;
  kw_delay : bool;
  kw_start : option datetime;
  kw_stop : option datetime }.

Record Job := MkJob {
  job_type : JobType;
  timing : list pyvalue;
  handle : string;               (* the callback, by name *)
  job_tzinfo : tzinfo;           (* Job._tzinfo *)
  max_attempts : Z;
  tags : gset string;
  weight : Qc;
  delay : bool;
  start : option datetime;
  stop : option datetime;
  attempts : nat;                (* executions so far *)
  next_due : Z }.                (* the cached next-due instant *)

Definition set_attempts (n : nat) (j : Job) : Job :=
  MkJob (job_type j) (timing j) (handle j) (job_tzinfo j) (max_attempts j)
        (tags j) (weight j) (delay j) (start j) (stop j) n (next_due j).

Definition set_next_due (d : Z) (j : Job) : Job :=
  MkJob (job_type j) (timing j) (handle j) (job_tzinfo j) (max_attempts j)
        (tags j) (weight j) (delay j) (start j) (stop j) (attempts j) d.

Global Instance Job_inhabited : Inhabited Job :=
  populate (MkJob CYCLIC [] "" None 0 ∅ 0%Qc false None None 0%nat 0).

(** Modelled from the spec: [Job.has_attempts_remaining] of [scheduler.job]
    (the class [Job] is not among the sources): "true if max_attempts == 0
    or attempts < max_attempts". *)
Definition has_attempts_remaining (j : Job) : bool :=
  bool_decide (max_attempts j = 0)
  || bool_decide (Z.of_nat (attempts j) < max_attempts j).

(** What [core.py] imports from [scheduler.job] and is not among the
    sources: the error messages, the timing aliases as [typeguard] checks
    them, the defaults and the validation of [Job.__init__], and the
    due-time rules of a job. *)
Class JobModule := {
  CYCLIC_TYPE_ERROR_MSG : string;
  DAILY_TYPE_ERROR_MSG : string;
  HOURLY_TYPE_ERROR_MSG : string;
  MINUTELY_TYPE_ERROR_MSG : string;
  WEEKLY_TYPE_ERROR_MSG : string;
  TZ_ERROR_MSG : string;
  (* typeguard.check_type("timing", v, alias) returns without raising *)
  check_type : TimingAlias → pyvalue → bool;
  (* the keyword defaults of Job.__init__ *)
  Job_defaults : JobKwargs;
  (* the message Job.__init__ raises, None when it accepts its arguments *)
  Job_validate : JobType → list pyvalue → tzinfo → JobKwargs → option string;
  (* the next-due instant a job computes: at construction, and on
     _calc_next_exec(ref_dt) *)
  first_due : JobType → list pyvalue → tzinfo → JobKwargs → Z;
  due_after : Job → datetime → Z;
  (* Job.timedelta(ref_dt), in microseconds *)
  Job_timedelta : Job → datetime → Z }.

(** The iteration order of a [set]: implementation-defined, and a listing
    of exactly the members. *)
Class PySetOrder := {
  set_iter : gset positive → list positive;
  set_iter_perm : ∀ s, set_iter s ≡ₚ elements s }.

(** ** The object store *)

Abbreviation job_ref := positive (only parsing).
Abbreviation set_ref := positive (only parsing).

Record heap := Heap {
  jobs_mem : gmap positive Job;              (* the Job objects *)
  sets_mem : gmap positive (gset positive);  (* the set[Job] objects *)
  calls : list positive }.                   (* callbacks invoked so far *)

Definition job_at (h : heap) (r : job_ref) : Job := jobs_mem h !!! r.
Definition set_at (h : heap) (l : set_ref) : gset positive := sets_mem h !!! l.

Definition tags_of (h : heap) (r : job_ref) : gset string := tags (job_at h r).

Definition put_job (r : job_ref) (j : Job) (h : heap) : heap :=
  Heap (<[r := j]> (jobs_mem h)) (sets_mem h) (calls h).

Definition put_set (l : set_ref) (s : gset positive) (h : heap) : heap :=
  Heap (jobs_mem h) (<[l := s]> (sets_mem h)) (calls h).

(** ** Exceptions and the state-and-exception monad *)

Inductive pykey :=
  | KeyJob (r : positive)        (* a job, as the member of a set *)
  | KeyType (ty : pytype).       (* a type, as the key of a dict *)

Inductive exn :=
  | SchedulerError (msg : string)
  | KeyError (key : pykey)
  | PyException (repr : string).   (* any other exception, of a callback *)

(** How a call ends: it returns a value, an exception leaves it, or it
    never returns. *)
Inductive result (A : Type) :=
  | Ok (a : A)
  | Raise (e : exn)
  | Hang.
Arguments Ok {A} a.
Arguments Raise {A} e.
Arguments Hang {A}.

Definition M (A : Type) : Type := heap → result A * heap.

Definition ret {A} (a : A) : M A := λ h, (Ok a, h).
Definition raise {A} (e : exn) : M A := λ h, (Raise e, h).
Definition hang {A} : M A := λ h, (Hang, h).
Definition bind {A B} (m : M A) (k : A → M B) : M B :=
  λ h, match m h with
       | (Ok a, h') => k a h'
       | (Raise e, h') => (Raise e, h')
       | (Hang, h') => (Hang, h')
       end.
Definition get_heap : M heap := λ h, (Ok h, h).
Definition modify (f : heap → heap) : M () := λ h, (Ok (), f h).

Notation "'let*' x ':=' m 'in' k" := (bind m (λ x, k))
  (at level 10, x pattern, m at level 100, k at level 200, only parsing).

(** [for x in l: body(x)]; an exception leaves the loop. *)
Fixpoint for_each {A} (l : list A) (body : A → M ()) : M () :=
  match l with
  | [] => ret ()
  | x :: l' => let* _ := body x in for_each l' body
  end.

(** A new set object holding [s]: a set display, [set()], [.copy()], a set
    comprehension or a set difference that escapes to the caller. *)
Definition alloc_set (s : gset positive) : M set_ref :=
  λ h, let l := fresh (dom (sets_mem h)) in (Ok l, put_set l s h).

(** A new job object. *)
Definition alloc_job (j : Job) : M job_ref :=
  λ h, let r := fresh (dom (jobs_mem h)) in (Ok r, put_job r j h).

(** ** Callbacks *)

(** The callbacks are the caller's code.  What invoking the callback of a
    job does, as far as the scheduler can tell: it returns ([None]) or it
    raises an exception ([Some e]); this may depend on the job and on its
    state (its handle, its attempts so far). *)
Class Callbacks := {
  callback_raises : Job → option exn }.

(** ** Module-level helpers *)

(** [tags & job.tags] is truthy when the intersection is not empty;
    [tags <= job.tags] is set inclusion.  The comprehension builds a new
    set, returned here as a value. *)
Definition select_jobs_by_tag (h : heap) (jobs : gset positive)
    (tags : gset string) (any_tag : bool) : gset positive :=
  if any_tag then filter (λ r, tags ∩ tags_of h r ≠ ∅) jobs
  else filter (λ r, tags ⊆ tags_of h r) jobs.

(** The two operands of [tags == {}]: a set of strings and a dict display.
    A set and a dict are never equal. *)
Inductive pycoll :=
  | PySet (s : gset string)
  | PyDict (d : gmap string string).

Definition py_eq (a b : pycoll) : bool :=
  match a, b with
  | PySet s, PySet t => bool_decide (s = t)
  | PyDict d, PyDict e => bool_decide (d = e)
  | _, _ => false
  end.

(** [tags is None or tags == {}] *)
Definition no_tags (tags : option (gset string)) : bool :=
  match tags with
  | None => true
  | Some t => py_eq (PySet t) (PyDict ∅)
  end.

(** [enumerate(l)] *)
Definition enumerate {A} (l : list A) : list (nat * A) := imap pair l.

(** [sorted(l, key=key, reverse=True)]: descending by key, and stable (the
    members of equal key keep the order they have in [l]). *)
Fixpoint insert_desc {A} (key : A → Qc) (x : A) (l : list A) : list A :=
  match l with
  | [] => [x]
  | y :: l' =>
      if decide (key x < key y)%Qc then y :: insert_desc key x l' else x :: l
  end.

Definition sorted_reverse {A} (key : A → Qc) (l : list A) : list A :=
  foldr (insert_desc key) [] l.

(** ** The class [Scheduler] *)

Record Scheduler := MkScheduler {
  __max_exec : Z;
  __tzinfo : tzinfo;
  __priority_function : Qc → Job → Z → Z → Qc;
  __jobs : set_ref;
  __n_threads : nat }.

Definition rebind_jobs (l : set_ref) (self : Scheduler) : Scheduler :=
  MkScheduler (__max_exec self) (__tzinfo self) (__priority_function self) l
              (__n_threads self).

Section scheduler.
Context {JM : JobModule} {SO : PySetOrder} {CB : Callbacks}.

(** [Scheduler.__init__]: [jobs or set()] keeps the caller's set object
    when it is given and not empty. *)
Definition Scheduler_init (max_exec : Z) (tz : tzinfo)
    (priority_function : Qc → Job → Z → Z → Qc)
    (jobs : option set_ref) (n_threads : nat) : M Scheduler :=
  let* h := get_heap in
  let* l := match jobs with
            | Some l => if decide (set_at h l = ∅) then alloc_set ∅ else ret l
            | None => alloc_set ∅
            end in
  let* h := get_heap in
  if forallb (λ r, bool_decide (job_tzinfo (job_at h r) = tz))
             (set_iter (set_at h l))
  then ret (MkScheduler max_exec tz priority_function l n_threads)
  else raise (SchedulerError TZ_ERROR_MSG).

(** [delete_job]: [set.remove] raises [KeyError] on a missing member. *)
Definition delete_job (self : Scheduler) (job : job_ref) : M () :=
  let* h := get_heap in
  if decide (job ∈ set_at h (__jobs self))
  then modify (put_set (__jobs self) (set_at h (__jobs self) ∖ {[job]}))
  else raise (KeyError (KeyJob job)).

(** [delete_jobs] binds [self.__jobs] to a new set object. *)
Definition delete_jobs (self : Scheduler) (tags : option (gset string))
    (any_tag : bool) : M (Z * Scheduler) :=
  let* h := get_heap in
  let jobs := set_at h (__jobs self) in
  if no_tags tags then
    let n_jobs := Z.of_nat (size jobs) in
    let* l := alloc_set ∅ in
    ret (n_jobs, rebind_jobs l self)
  else
    let to_delete := select_jobs_by_tag h jobs (default ∅ tags) any_tag in
    let* l := alloc_set (jobs ∖ to_delete) in
    ret (Z.of_nat (size to_delete), rebind_jobs l self).

(** [get_jobs] returns a new set object in either branch. *)
Definition get_jobs (self : Scheduler) (tags : option (gset string))
    (any_tag : bool) : M set_ref :=
  let* h := get_heap in
  let jobs := set_at h (__jobs self) in
  if no_tags tags then alloc_set jobs
  else alloc_set (select_jobs_by_tag h jobs (default ∅ tags) any_tag).

(** The property [jobs]. *)
Definition jobs (self : Scheduler) : M set_ref :=
  let* h := get_heap in alloc_set (set_at h (__jobs self)).

(** Modelled from the spec: the job [Job.__init__] of [scheduler.job] (not
    among the sources) builds: it stores its arguments, with no execution
    counted so far. *)
Definition new_job (jt : JobType) (timing_list : list pyvalue)
    (handle : string) (tz : tzinfo) (kw : JobKwargs) : Job :=
  MkJob jt timing_list handle tz (kw_max_attempts kw) (kw_tags kw)
        (kw_weight kw) (kw_delay kw) (kw_start kw) (kw_stop kw) 0%nat
        (first_due jt timing_list tz kw).

(** Modelled from the spec: [Job.__init__] of [scheduler.job] (not among
    the sources).  It raises what its validation finds, and otherwise
    builds the job. *)
Definition Job_init (jt : JobType) (timing_list : list pyvalue)
    (handle : string) (tz : tzinfo) (kw : JobKwargs) : result Job :=
  match Job_validate jt timing_list tz kw with
  | Some msg => Raise (SchedulerError msg)
  | None => Ok (new_job jt timing_list handle tz kw)
  end.

(** Modelled from the spec: [Job._exec] of [scheduler.job]: "invokes the
    callback with its stored arguments; increments attempts", and the
    exceptions of the callback "are not swallowed": one that the callback
    raises leaves [_exec] before the attempt is counted. *)
Definition Job_exec (job : job_ref) : M () :=
  let* h := get_heap in
  let* _ := modify (λ h, Heap (jobs_mem h) (sets_mem h) (calls h ++ [job])) in
  match callback_raises (job_at h job) with
  | Some e => raise e
  | None =>
      modify (put_job job (set_attempts (S (attempts (job_at h job)))
                                        (job_at h job)))
  end.

(** Modelled from the spec: [Job._calc_next_exec] of [scheduler.job]:
    "recomputes and caches the job's next-due instant from
    reference_instant". *)
Definition Job_calc_next_exec (job : job_ref) (ref_dt : datetime) : M () :=
  modify (λ h, put_job job
                 (set_next_due (due_after (job_at h job) ref_dt) (job_at h job))
                 h).

(** A [queue.Queue]: the jobs not yet taken, and the count of unfinished
    tasks ([put] adds one, [task_done] takes one off, [join] returns once
    it is 0). *)
Record Queue := MkQueue {
  queued : list job_ref;
  unfinished_tasks : nat }.

(** [__exec_job_worker], one worker thread from its start to its end: it
    takes jobs off the queue until the queue is empty.  An exception of
    [job._exec()] is handled nowhere in the thread: it ends the thread,
    with the job taken and [task_done] not called for it, and does not
    reach the thread that started the worker. *)
Fixpoint __exec_job_worker (queued : list job_ref) (unfinished : nat)
    (h : heap) : Queue * heap :=
  match queued with
  | [] => (MkQueue [] unfinished, h)                 (* queue.Empty *)
  | job :: rest =>
      match Job_exec job h with
      | (Ok _, h') => __exec_job_worker rest (pred unfinished) h'
      | (_, h') => (MkQueue rest unfinished, h')
      end
  end.

(** The workers started by [__exec_jobs], each run to its end before the
    next one starts. *)
Fixpoint start_workers (n : nat) (que : Queue) (h : heap) : Queue * heap :=
  match n with
  | O => (que, h)
  | S n' =>
      let '(que', h') :=
        __exec_job_worker (queued que) (unfinished_tasks que) h in
      start_workers n' que' h'
  end.

(** [__exec_jobs].  Inline ([n_threads == 1]) an exception of a callback
    leaves the loop and the method.  Otherwise the jobs are put on a queue
    and [n_threads or n_jobs] workers are started; [que.join()] returns
    when every task is done (the workers have then ended or find the queue
    empty, so joining them returns too) and waits for ever when a worker
    died on a job. *)
Definition __exec_jobs (self : Scheduler) (jobs : list job_ref)
    (ref_dt : datetime) : M Z :=
  let n_jobs := length jobs in
  let* _ :=
    if decide (__n_threads self = 1%nat) then for_each jobs Job_exec
    else
      λ h,
        let n_workers := if decide (__n_threads self = 0%nat) then n_jobs
                         else __n_threads self in
        let '(que, h') := start_workers n_workers (MkQueue jobs n_jobs) h in
        if decide (unfinished_tasks que = 0%nat) then (Ok (), h')
        else (Hang, h') in
  let* _ :=
    for_each jobs (λ job,
      let* _ := Job_calc_next_exec job ref_dt in
      let* h := get_heap in
      if has_attempts_remaining (job_at h job) then ret ()
      else delete_job self job) in
  ret (Z.of_nat n_jobs).

(** The dictionary [job_priority] of [exec_jobs], as the function its
    [get] is on the registered jobs. *)
Definition job_priority (self : Scheduler) (h : heap) (ref_dt : datetime)
    (job : job_ref) : Qc :=
  let delta_seconds := total_seconds (Job_timedelta (job_at h job) ref_dt) in
  __priority_function self (- delta_seconds)%Qc (job_at h job)
    (__max_exec self) (Z.of_nat (size (set_at h (__jobs self)))).

(** The list comprehension [filtered_jobs] of [exec_jobs]. *)
Definition filtered_jobs (max_exec : Z) (priority : job_ref → Qc)
    (sorted_jobs : list job_ref) : list job_ref :=
  (filter (λ p, (max_exec = 0 ∨ Z.of_nat p.1 < max_exec) ∧ (0 < priority p.2)%Qc)
          (enumerate sorted_jobs)).*2.

(** [exec_jobs]; [now] is what [dt.datetime.now] reads off the clock. *)
Definition exec_jobs (self : Scheduler) (force_exec_all : bool) (now : Z)
    : M Z :=
  let ref_dt := Datetime now (__tzinfo self) in
  let* h := get_heap in
  if force_exec_all then
    __exec_jobs self (set_iter (set_at h (__jobs self))) ref_dt
  else
    let sorted_jobs :=
      sorted_reverse (job_priority self h ref_dt)
                     (set_iter (set_at h (__jobs self))) in
    __exec_jobs self
      (filtered_jobs (__max_exec self) (job_priority self h ref_dt) sorted_jobs)
      ref_dt.

(** [__schedule]: wrap a bare timing value in a list, build the job with
    the scheduler's timezone, add it when it has attempts remaining. *)
Definition __schedule (self : Scheduler) (jt : JobType) (timing : pyvalue)
    (handle : string) (kw : JobKwargs) : M job_ref :=
  let timing_list := match timing with PyList l => l | _ => [timing] end in
  match Job_init jt timing_list handle (__tzinfo self) kw with
  | Raise e => raise e
  | Hang => hang                     (* no outcome of Job.__init__ *)
  | Ok j =>
      let* job := alloc_job j in
      let* _ :=
        if has_attempts_remaining j then
          let* h := get_heap in
          modify (put_set (__jobs self) ({[job]} ∪ set_at h (__jobs self)))
        else ret () in
      ret job
  end.

(** The registration methods.  [kw] stands for [**kwargs]: the job
    properties of the call. *)
Definition cyclic (self : Scheduler) (timing : pyvalue) (handle : string)
    (kw : JobKwargs) : M job_ref :=
  if check_type TimingCyclic timing then __schedule self CYCLIC timing handle kw
  else raise (SchedulerError CYCLIC_TYPE_ERROR_MSG).

Definition minutely (self : Scheduler) (timing : pyvalue) (handle : string)
    (kw : JobKwargs) : M job_ref :=
  if check_type TimingDailyUnion timing
  then __schedule self MINUTELY timing handle kw
  else raise (SchedulerError MINUTELY_TYPE_ERROR_MSG).

Definition hourly (self : Scheduler) (timing : pyvalue) (handle : string)
    (kw : JobKwargs) : M job_ref :=
  if check_type TimingDailyUnion timing
  then __schedule self HOURLY timing handle kw
  else raise (SchedulerError HOURLY_TYPE_ERROR_MSG).

Definition daily (self : Scheduler) (timing : pyvalue) (handle : string)
    (kw : JobKwargs) : M job_ref :=
  if check_type TimingDailyUnion timing
  then __schedule self DAILY timing handle kw
  else raise (SchedulerError DAILY_TYPE_ERROR_MSG).

Definition weekly (self : Scheduler) (timing : pyvalue) (handle : string)
    (kw : JobKwargs) : M job_ref :=
  if check_type TimingWeeklyUnion timing
  then __schedule self WEEKLY timing handle kw
  else raise (SchedulerError WEEKLY_TYPE_ERROR_MSG).

(** [once]: the keywords it does not pass keep the defaults of
    [Job.__init__]. *)
Definition once (self : Scheduler) (timing : pyvalue) (handle : string)
    (tags : gset string) (weight : Qc) : M job_ref :=
  if check_type TimingOnceUnion timing then
    match timing with
    | PyDatetime d =>
        __schedule self CYCLIC (PyTimedelta 0) handle
          (MkKwargs 1 tags weight false (Some d) (kw_stop Job_defaults))
    | _ =>
        match JOB_TYPE_MAPPING (type_of timing) with
        | None => raise (KeyError (KeyType (type_of timing)))
        | Some jt =>
            __schedule self jt timing handle
              (MkKwargs 1 tags weight (kw_delay Job_defaults)
                        (kw_start Job_defaults) (kw_stop Job_defaults))
        end
    end
  else raise (SchedulerError ONCE_TYPE_ERROR_MSG).

End scheduler.

(** ** A concrete instance for the examples *)

(** Modelled from the spec: the timing shapes of section 4.3 and of
    [ONCE_TYPE_ERROR_MSG], as a stand-in for the aliases of
    [scheduler.job]: a duration or a list of durations; a time of day or a
    list of them; a weekday or a list of them; for [once] a datetime, a
    duration, a weekday or a time of day. *)
Definition spec_check_type (alias : TimingAlias) (v : pyvalue) : bool :=
  let is_timedelta v := match v with PyTimedelta _ => true | _ => false end in
  let is_time v := match v with PyTime _ => true | _ => false end in
  let is_weekday v := match v with PyWeekday _ => true | _ => false end in
  let one_or_list p v :=
    match v with PyList l => forallb p l | _ => p v end in
  match alias with
  | TimingCyclic => one_or_list is_timedelta v
  | TimingDailyUnion => one_or_list is_time v
  | TimingWeeklyUnion => one_or_list is_weekday v
  | TimingOnceUnion =>
      isinstance_datetime v || is_timedelta v || is_weekday v || is_time v
  end.

(** Modelled from the spec: the construction-time checks of section 3, as
    a stand-in for the validation of [Job.__init__]: the times of day of
    the timing and the bounds [start] and [stop] carry the job's timezone,
    and [start <= stop]. *)
Definition spec_validate (jt : JobType) (timing_list : list pyvalue)
    (tz : tzinfo) (kw : JobKwargs) : option string :=
  let time_ok v :=
    match v with PyTime t => bool_decide (t_tzinfo t = tz) | _ => true end in
  let bound_ok b :=
    match b with Some d => bool_decide (dt_tzinfo d = tz) | None => true end in
  if negb (forallb time_ok timing_list) then Some "TZ_ERROR_MSG"
  else if negb (bound_ok (kw_start kw) && bound_ok (kw_stop kw))
  then Some "TZ_ERROR_MSG"
  else match kw_start kw, kw_stop kw with
       | Some a, Some b =>
           if bool_decide (dt_instant b < dt_instant a)
           then Some "START_STOP_ERROR" else None
       | _, _ => None
       end.

(** The stand-in job module: a job is due at its cached instant, which is
    the start (or 0) at first and one minute after the reference instant
    on every recompute. *)
Definition spec_job_module : JobModule := {|
  CYCLIC_TYPE_ERROR_MSG := "CYCLIC_TYPE_ERROR_MSG";
  DAILY_TYPE_ERROR_MSG := "DAILY_TYPE_ERROR_MSG";
  HOURLY_TYPE_ERROR_MSG := "HOURLY_TYPE_ERROR_MSG";
  MINUTELY_TYPE_ERROR_MSG := "MINUTELY_TYPE_ERROR_MSG";
  WEEKLY_TYPE_ERROR_MSG := "WEEKLY_TYPE_ERROR_MSG";
  TZ_ERROR_MSG := "TZ_ERROR_MSG";
  check_type := spec_check_type;
  Job_defaults := MkKwargs 0 ∅ 1%Qc true None None;
  Job_validate := spec_validate;
  first_due := λ _ _ _ kw, from_option dt_instant 0 (kw_start kw);
  due_after := λ _ ref_dt, dt_instant ref_dt + 60000000;
  Job_timedelta := λ j ref_dt, next_due j - dt_instant ref_dt |}.

(** The callbacks of the examples: the one called "fails" raises, any
    other returns. *)
Definition example_callbacks : Callbacks := {|
  callback_raises := λ j,
    if bool_decide (handle j = "fails")
    then Some (PyException "RuntimeError") else None |}.

(** Sets iterated in the order of [elements]. *)
Definition elements_order : PySetOrder := {|
  set_iter := elements;
  set_iter_perm := λ s, reflexivity (elements s) |}.

(** Modelled from the spec: the linear strategy of section 4.2,
    "proportional to overdue_seconds * job.weight". *)
Definition linear_priority_function (overdue : Qc) (job : Job)
    (max_exec n_jobs : Z) : Qc := (overdue * weight job)%Qc.

(** Three jobs tagged a, ab and b with weights 1, 5 and 10, each allowed
    two attempts, all due at instant 0; job 4 is not registered. *)
Definition example_job (ts : gset string) (w : Qc) : Job :=
  MkJob CYCLIC [PyTimedelta 1000000] "callback" None 2 ts w true None None
        0%nat 0.

Definition example_heap : heap :=
  Heap (<[1%positive := example_job {["a"]} 1%Qc]>
        (<[2%positive := example_job {["a"; "b"]} (Q2Qc 5)]>
        (<[3%positive := example_job {["b"]} (Q2Qc 10)]>
        (<[4%positive := example_job ∅ 1%Qc]> ∅))))
       (<[1%positive := {[1%positive; 2%positive; 3%positive]}]> ∅)
       [].

(** The example store with the callback of job 2 raising. *)
Definition example_heap_failing : heap :=
  put_job 2%positive
    (MkJob CYCLIC [PyTimedelta 1000000] "fails" None 2 {["a"; "b"]} (Q2Qc 5)
           true None None 0%nat 0)
    example_heap.

Definition example_scheduler (max_exec : Z) : Scheduler :=
  MkScheduler max_exec None linear_priority_function 1%positive 1.

(** * Properties *)

(** ** Sorting *)

Section sorting.
Context {A : Type} (key : A → Qc).

Definition descending (l : list A) : Prop :=
  StronglySorted (λ a b, (key b ≤ key a)%Qc) l.

Lemma insert_desc_perm x l : insert_desc key x l ≡ₚ x :: l.
Proof.
  induction l as [|y l IH]; simpl; [done|].
  case_decide; [|done].
  rewrite IH. apply Permutation_swap.
Qed.

Lemma sorted_reverse_perm l : sorted_reverse key l ≡ₚ l.
Proof.
  induction l as [|x l IH]; simpl; [done|].
  unfold sorted_reverse in *; simpl.
  by rewrite insert_desc_perm, IH.
Qed.

Lemma insert_desc_descending x l :
  descending l → descending (insert_desc key x l).
Proof.
  unfold descending.
  induction 1 as [|y l Hl IH Hy]; simpl.
  - repeat constructor.
  - case_decide as Hlt.
    + constructor; [done|].
      rewrite insert_desc_perm. constructor; [|done].
      by apply Qclt_le_weak.
    + apply Qcnot_lt_le in Hlt.
      constructor; [by constructor|].
      constructor; [done|].
      eapply Forall_impl; [exact Hy|].
      intros z Hz; simpl in Hz. by etrans.
Qed.

Lemma sorted_reverse_descending l : descending (sorted_reverse key l).
Proof.
  induction l as [|x l IH]; simpl.
  - constructor.
  - by apply insert_desc_descending.
Qed.

Lemma insert_desc_filter_key k x l :
  descending l →
  filter (λ a, key a = k) (insert_desc key x l)
  = filter (λ a, key a = k) (x :: l).
Proof.
  unfold descending.
  induction 1 as [|y l Hl IH Hy]; simpl; [done|].
  case_decide as Hlt; [|done].
  rewrite !filter_cons in *.
  destruct (decide (key y = k)) as [Hyk|Hyk], (decide (key x = k)) as [Hxk|Hxk];
    try (by rewrite IH).
  subst k. rewrite Hyk in Hlt. by apply Qclt_not_eq in Hlt.
Qed.

(** The model of [sorted(..., reverse=True)] is stable, as the builtin is:
    the members of one key keep the order they have in the list sorted. *)
Lemma sorted_reverse_stable k l :
  filter (λ a, key a = k) (sorted_reverse key l) = filter (λ a, key a = k) l.
Proof.
  induction l as [|x l IH]; [done|].
  unfold sorted_reverse in *; simpl.
  rewrite insert_desc_filter_key by apply sorted_reverse_descending.
  by rewrite !filter_cons, IH.
Qed.

End sorting.

(** ** The selection of a tick *)

Section selection.
Context (max_exec : Z) (priority : positive → Qc).

(** The jobs due at this tick, in the order of [l]. *)
Definition due_jobs (l : list positive) : list positive :=
  filter (λ r, (0 < priority r)%Qc) l.

(** The cap: the first [max_exec] members, all of them when it is 0. *)
Definition capped (l : list positive) : list positive :=
  if decide (max_exec = 0) then l else take (Z.to_nat max_exec) l.

Lemma descending_not_due x l :
  descending priority (x :: l) → ¬ (0 < priority x)%Qc → due_jobs l = [].
Proof.
  intros Hs Hx. apply StronglySorted_inv in Hs as [_ Hall].
  unfold due_jobs. induction l as [|y l IH]; [done|].
  inversion Hall as [|? ? Hy Hall']; subst.
  rewrite filter_cons_False; [by apply IH|].
  intros Hpos. apply Hx. by eapply Qclt_le_trans.
Qed.

Lemma filtered_from (i : nat) (l : list positive) :
  descending priority l →
  (filter (λ p : nat * positive,
             (max_exec = 0 ∨ Z.of_nat p.1 < max_exec) ∧ (0 < priority p.2)%Qc)
          (imap (λ n x, ((i + n)%nat, x)) l)).*2
  = if decide (max_exec = 0) then due_jobs l
    else take (Z.to_nat max_exec - i) (due_jobs l).
Proof.
  revert i. induction l as [|x l IH]; intros i Hs.
  - simpl. case_decide; [done|]. unfold due_jobs. by rewrite filter_nil, take_nil.
  - rewrite imap_cons.
    assert (Hext : imap ((λ n x0, ((i + n)%nat, x0)) ∘ S) l
                   = imap (λ n x0, ((S i + n)%nat, x0)) l).
    { apply imap_ext. intros n y _. simpl. f_equal. lia. }
    rewrite Hext. clear Hext.
    destruct (decide (0 < priority x)%Qc) as [Hpos|Hneg].
    + unfold due_jobs. rewrite (filter_cons_True _ x) by done.
      fold (due_jobs l).
      pose proof (IH (S i) (proj1 (StronglySorted_inv Hs))) as IH'.
      destruct (decide (max_exec = 0 ∨ Z.of_nat (i + 0) < max_exec)) as [Hin|Hout].
      * rewrite filter_cons_True by done. rewrite fmap_cons, IH'.
        cbn [snd]. case_decide; [done|].
        destruct Hin as [?|Hin]; [done|].
        replace (Z.to_nat max_exec - i)%nat with (S (Z.to_nat max_exec - S i))
          by lia.
        done.
      * rewrite filter_cons_False by tauto. rewrite IH'.
        case_decide; [tauto|].
        replace (Z.to_nat max_exec - S i)%nat with 0%nat by lia.
        replace (Z.to_nat max_exec - i)%nat with 0%nat by lia.
        done.
    + rewrite filter_cons_False by tauto.
      rewrite (IH (S i) (proj1 (StronglySorted_inv Hs))).
      unfold due_jobs at 3 4. rewrite filter_cons_False by done.
      fold (due_jobs l).
      rewrite (descending_not_due x l Hs Hneg).
      case_decide; [done|]. by rewrite !take_nil.
Qed.

(** On a list sorted by descending priority the comprehension of
    [exec_jobs] keeps the due jobs, cut at the cap. *)
Lemma filtered_jobs_sorted l :
  descending priority l →
  filtered_jobs max_exec priority l = capped (due_jobs l).
Proof.
  intros Hs. unfold filtered_jobs, enumerate, capped.
  pose proof (filtered_from 0 l Hs) as Hf. simpl in Hf.
  rewrite Nat.sub_0_r in Hf. exact Hf.
Qed.

End selection.

(** ** The store after a tick *)

Lemma job_at_put_job h r j r' :
  job_at (put_job r j h) r' = if decide (r = r') then j else job_at h r'.
Proof. unfold job_at, put_job; simpl. apply lookup_total_insert. Qed.

Lemma set_at_put_set h l s l' :
  set_at (put_set l s h) l' = if decide (l = l') then s else set_at h l'.
Proof. unfold set_at, put_set; simpl. apply lookup_total_insert. Qed.

Lemma bind_ok {A B} (m : M A) (k : A → M B) h a h' :
  m h = (Ok a, h') → bind m k h = k a h'.
Proof. unfold bind. by intros ->. Qed.

Lemma job_at_lookup h h' r :
  jobs_mem h' !! r = jobs_mem h !! r → job_at h' r = job_at h r.
Proof. unfold job_at. rewrite !lookup_total_alt. by intros ->. Qed.

Lemma job_at_lookup_Some h r j : jobs_mem h !! r = Some j → job_at h r = j.
Proof. unfold job_at. rewrite lookup_total_alt. by intros ->. Qed.

Lemma bind_raise {A B} (m : M A) (k : A → M B) h e h' :
  m h = (Raise e, h') → bind m k h = (Raise e, h').
Proof. unfold bind. by intros ->. Qed.

Lemma bind_hang {A B} (m : M A) (k : A → M B) h h' :
  m h = (Hang, h') → bind m k h = (Hang, h').
Proof. unfold bind. by intros ->. Qed.

Section tick.
Context {JM : JobModule} {SO : PySetOrder} {CB : Callbacks}.

(** A job after [_exec], and after [_calc_next_exec(ref_dt)]. *)
Definition executed (j : Job) : Job := set_attempts (S (attempts j)) j.

Definition recomputed (ref_dt : datetime) (j : Job) : Job :=
  set_next_due (due_after j ref_dt) j.

Definition after_tick (ref_dt : datetime) (j : Job) : Job :=
  recomputed ref_dt (executed j).

(** What [__exec_jobs self l ref_dt] leaves of the store [h]. *)
Record tick_post (self : Scheduler) (l : list positive) (ref_dt : datetime)
    (h h' : heap) : Prop := TickPost {
  tp_jobs : ∀ r, jobs_mem h' !! r =
              if decide (r ∈ l) then Some (after_tick ref_dt (job_at h r))
              else jobs_mem h !! r;
  tp_set : set_at h' (__jobs self) =
             filter (λ r, r ∉ l ∨
                       has_attempts_remaining (after_tick ref_dt (job_at h r)))
                    (set_at h (__jobs self));
  tp_other_sets : ∀ l', l' ≠ __jobs self → sets_mem h' !! l' = sets_mem h !! l' }.

(** Whether the callback of the job [r] returns when it is invoked in the
    store [h]. *)
Definition returns (h : heap) (r : job_ref) : Prop :=
  callback_raises (job_at h r) = None.

#[local] Instance returns_dec h r : Decision (returns h r) :=
  option_eq_None_dec _.

(** The exception of the first job of [l] whose callback raises. *)
Fixpoint first_exn (h : heap) (l : list job_ref) : option exn :=
  match l with
  | [] => None
  | r :: l' =>
      match callback_raises (job_at h r) with
      | Some e => Some e
      | None => first_exn h l'
      end
  end.

(** The jobs that [w] threads take off the list [l], one thread after the
    other: a thread goes on until a callback raises. *)
Fixpoint taken (h : heap) (w : nat) (l : list job_ref) : list job_ref :=
  match l, w with
  | [], _ | _, O => []
  | r :: l', S w' => r :: taken h (if decide (returns h r) then w else w') l'
  end.

(** The threads that run the jobs of a tick: the caller's own when the jobs
    run inline, the workers otherwise. *)
Definition n_workers (self : Scheduler) (n_jobs : nat) : nat :=
  if decide (__n_threads self = 1%nat) then 1%nat
  else if decide (__n_threads self = 0%nat) then n_jobs
       else __n_threads self.

(** The store [h'] when the callbacks of the jobs [ran] have been invoked
    from the store [h]: the jobs whose callback returned have one attempt
    more. *)
Record invoked_post (ran : list job_ref) (h h' : heap) : Prop := InvokedPost {
  ip_sets : sets_mem h' = sets_mem h;
  ip_calls : calls h' = calls h ++ ran;
  ip_jobs : ∀ r, jobs_mem h' !! r =
              if decide (r ∈ ran ∧ returns h r)
              then Some (executed (job_at h r)) else jobs_mem h !! r }.

Lemma Job_exec_eq job h :
  Job_exec job h =
  match callback_raises (job_at h job) with
  | Some e => (Raise e, Heap (jobs_mem h) (sets_mem h) (calls h ++ [job]))
  | None => (Ok (), Heap (<[job := executed (job_at h job)]> (jobs_mem h))
                         (sets_mem h) (calls h ++ [job]))
  end.
Proof.
  unfold Job_exec, bind, get_heap, modify; simpl.
  by destruct (callback_raises (job_at h job)).
Qed.

Lemma first_exn_None h l :
  first_exn h l = None ↔ ∀ r, r ∈ l → returns h r.
Proof.
  unfold returns. induction l as [|x l IH]; simpl.
  - split; [|done]. intros _ r Hr. by apply not_elem_of_nil in Hr.
  - destruct (callback_raises (job_at h x)) eqn:Hx.
    + split; [done|]. intros Hall.
      specialize (Hall x (list_elem_of_here _ _)). congruence.
    + rewrite IH. split.
      * intros Hall r [->|Hr]%elem_of_cons; [done|by apply Hall].
      * intros Hall r Hr. by apply Hall, list_elem_of_further.
Qed.

Lemma first_exn_Some h pre r post e :
  (∀ x, x ∈ pre → returns h x) → callback_raises (job_at h r) = Some e →
  first_exn h (pre ++ r :: post) = Some e.
Proof.
  intros Hpre Hr. induction pre as [|x pre IH]; simpl.
  - by rewrite Hr.
  - rewrite (Hpre x (list_elem_of_here _ _)).
    apply IH. intros y Hy. by apply Hpre, list_elem_of_further.
Qed.

Lemma first_exn_split h l e :
  first_exn h l = Some e →
  ∃ pre r post, l = pre ++ r :: post ∧ (∀ x, x ∈ pre → returns h x)
                ∧ callback_raises (job_at h r) = Some e.
Proof.
  induction l as [|x l IH]; simpl; [done|].
  destruct (callback_raises (job_at h x)) eqn:Hx.
  - intros [= ->]. exists [], x, l. split_and!; [done| |done].
    intros y Hy. by apply not_elem_of_nil in Hy.
  - intros (pre & r & post & -> & Hpre & Hr)%IH.
    exists (x :: pre), r, post. split_and!; [done| |done].
    intros y [->|Hy]%elem_of_cons; [done|by apply Hpre].
Qed.

Lemma first_exn_raises h l e :
  first_exn h l = Some e → (length (filter (returns h) l) < length l)%nat.
Proof.
  intros (pre & r & post & -> & _ & Hr)%first_exn_split.
  apply (length_filter_lt _ _ r); [set_solver|].
  unfold returns. congruence.
Qed.

Lemma filter_returns_all h (l : list positive) :
  (∀ r, r ∈ l → returns h r) → filter (returns h) l = l.
Proof.
  induction l as [|x l IH]; intros Hall; [done|].
  rewrite filter_cons_True by apply Hall, list_elem_of_here.
  f_equal. apply IH. intros r Hr. by apply Hall, list_elem_of_further.
Qed.

Lemma taken_O h l : taken h 0 l = [].
Proof. by destruct l. Qed.

Lemma taken_prefix h w l : taken h w l `prefix_of` l.
Proof.
  revert w. induction l as [|x l IH]; intros w; [by destruct w|].
  destruct w as [|w]; [apply prefix_nil|]. simpl. apply prefix_cons, IH.
Qed.

Lemma elem_of_taken h w l r : r ∈ taken h w l → r ∈ l.
Proof. intros Hr. eapply elem_of_prefix; [exact Hr|apply taken_prefix]. Qed.

Lemma taken_all h w l :
  (∀ r, r ∈ l → returns h r) → (l ≠ [] → w ≠ 0%nat) → taken h w l = l.
Proof.
  intros Hall Hw. destruct l as [|x l]; [by destruct w|].
  destruct w as [|w]; [by destruct Hw|]. clear Hw.
  revert Hall. generalize x. clear x.
  induction l as [|y l IH]; intros x Hall; simpl.
  - by destruct (decide (returns h x)).
  - rewrite decide_True by apply Hall, list_elem_of_here.
    f_equal. apply IH. intros r Hr. by apply Hall, list_elem_of_further.
Qed.

Lemma taken_one h pre r post :
  (∀ x, x ∈ pre → returns h x) → ¬ returns h r →
  taken h 1 (pre ++ r :: post) = pre ++ [r].
Proof.
  intros Hpre Hr. induction pre as [|x pre IH]; simpl.
  - rewrite decide_False by done. by rewrite taken_O.
  - rewrite decide_True by apply Hpre, list_elem_of_here.
    f_equal. apply IH. intros y Hy. by apply Hpre, list_elem_of_further.
Qed.

Lemma taken_first h w pre r post :
  (∀ x, x ∈ pre → returns h x) →
  pre ++ [r] `prefix_of` taken h (S w) (pre ++ r :: post).
Proof.
  intros Hpre. induction pre as [|x pre IH]; simpl.
  - apply prefix_cons, prefix_nil.
  - rewrite decide_True by apply Hpre, list_elem_of_here.
    apply prefix_cons, IH. intros y Hy. by apply Hpre, list_elem_of_further.
Qed.

(** The loop [for job in jobs: job._exec()], from a store [h] in which the
    jobs of the list are as they are in [h0]: it ends with the first
    exception. *)
Lemma for_each_Job_exec h0 l :
  NoDup l → ∀ h, (∀ r, r ∈ l → job_at h r = job_at h0 r) →
  ∃ h', for_each l Job_exec h
        = (match first_exn h0 l with None => Ok () | Some e => Raise e end, h')
    ∧ sets_mem h' = sets_mem h
    ∧ calls h' = calls h ++ taken h0 1 l
    ∧ ∀ r, jobs_mem h' !! r =
        if decide (r ∈ taken h0 1 l ∧ returns h0 r)
        then Some (executed (job_at h0 r)) else jobs_mem h !! r.
Proof.
  induction l as [|x l IH]; intros Hnd h Hsame.
  - exists h. simpl. split_and!; [done|done|by rewrite app_nil_r|done].
  - apply NoDup_cons in Hnd as [Hx Hnd].
    change (for_each (x :: l) Job_exec) with
      (let* _ := Job_exec x in for_each l Job_exec).
    unfold bind. rewrite Job_exec_eq.
    rewrite (Hsame x (list_elem_of_here _ _)).
    cbn [first_exn taken].
    destruct (callback_raises (job_at h0 x)) as [e|] eqn:Hcb.
    + eexists. split_and!; [done|done| |].
      * simpl. rewrite decide_False by (unfold returns; congruence).
        by rewrite taken_O.
      * intros r. simpl. rewrite decide_False; [done|].
        rewrite decide_False by (unfold returns; congruence).
        rewrite taken_O. intros [->%list_elem_of_singleton Hr].
        unfold returns in Hr. congruence.
    + rewrite decide_True by done.
      set (h1 := Heap (<[x := executed (job_at h0 x)]> (jobs_mem h))
                      (sets_mem h) (calls h ++ [x])).
      destruct (IH Hnd h1) as (h' & Hrun & Hsets & Hcalls & Hjobs).
      { intros r Hr. rewrite <- (Hsame r) by by apply list_elem_of_further.
        unfold job_at, h1; simpl. rewrite lookup_total_insert_ne; [done|].
        by intros ->. }
      exists h'. split_and!; [exact Hrun|by rewrite Hsets| |].
      * rewrite Hcalls. simpl. by rewrite <- app_assoc.
      * intros r. rewrite Hjobs. destruct (decide (r = x)) as [->|Hne].
        -- rewrite decide_False
             by (intros [Hr _]; by apply elem_of_taken in Hr).
           rewrite decide_True by (split; [apply list_elem_of_here|done]).
           simpl. by rewrite lookup_insert_eq.
        -- simpl. rewrite lookup_insert_ne by done.
           destruct (decide (r ∈ taken h0 1 l ∧ returns h0 r)) as [[Hr ?]|Hr].
           ++ by rewrite decide_True
                by (split; [by apply list_elem_of_further|done]).
           ++ rewrite decide_False; [done|].
              intros [[?|?]%elem_of_cons ?]; [done|]. by apply Hr.
Qed.

Lemma start_workers_nil w u h :
  start_workers w (MkQueue [] u) h = (MkQueue [] u, h).
Proof. induction w as [|w IH]; [done|]. simpl. exact IH. Qed.

Lemma start_workers_cons w x l u h :
  start_workers (S w) (MkQueue (x :: l) u) h =
  match Job_exec x h with
  | (Ok _, h') => start_workers (S w) (MkQueue l (pred u)) h'
  | (_, h') => start_workers w (MkQueue l u) h'
  end.
Proof.
  cbn [start_workers __exec_job_worker queued unfinished_tasks].
  by destruct (Job_exec x h) as [[[]|e|] h'].
Qed.

(** The workers on a queue, from a store [h] in which the jobs queued are
    as they are in [h0]: a task stays unfinished for every job taken whose
    callback raised and for every job not taken. *)
Lemma start_workers_spec h0 l :
  NoDup l → ∀ w u h, (∀ r, r ∈ l → job_at h r = job_at h0 r) →
  ∃ que h', start_workers w (MkQueue l u) h = (que, h')
    ∧ unfinished_tasks que
      = (u - length (filter (returns h0) (taken h0 w l)))%nat
    ∧ sets_mem h' = sets_mem h
    ∧ calls h' = calls h ++ taken h0 w l
    ∧ ∀ r, jobs_mem h' !! r =
        if decide (r ∈ taken h0 w l ∧ returns h0 r)
        then Some (executed (job_at h0 r)) else jobs_mem h !! r.
Proof.
  induction l as [|x l IH]; intros Hnd w u h Hsame.
  - exists (MkQueue [] u), h. rewrite start_workers_nil.
    assert (taken h0 w [] = []) as -> by by destruct w.
    split_and!; [done|simpl; lia|done|by rewrite app_nil_r|].
    intros r. rewrite decide_False; [done|]. intros [Hr _].
    by apply not_elem_of_nil in Hr.
  - apply NoDup_cons in Hnd as [Hx Hnd]. destruct w as [|w].
    { exists (MkQueue (x :: l) u), h.
      split_and!; [done|simpl; lia|done|by rewrite app_nil_r|].
      intros r. rewrite decide_False; [done|]. intros [Hr _].
      by apply not_elem_of_nil in Hr. }
    rewrite start_workers_cons, Job_exec_eq.
    rewrite (Hsame x (list_elem_of_here _ _)).
    cbn [taken].
    destruct (callback_raises (job_at h0 x)) as [e|] eqn:Hcb.
    + rewrite decide_False by (unfold returns; congruence).
      set (h1 := Heap (jobs_mem h) (sets_mem h) (calls h ++ [x])).
      destruct (IH Hnd w u h1) as (que & h' & Hrun & Hun & Hsets & Hcalls & Hjobs).
      { intros r Hr. by rewrite <- (Hsame r) by by apply list_elem_of_further. }
      exists que, h'. split_and!; [exact Hrun| |by rewrite Hsets| |].
      * rewrite Hun, filter_cons_False; [done|]. unfold returns. congruence.
      * rewrite Hcalls. simpl. by rewrite <- app_assoc.
      * intros r. rewrite Hjobs. simpl.
        destruct (decide (r ∈ taken h0 w l ∧ returns h0 r)) as [[Hr ?]|Hr].
        -- by rewrite decide_True
             by (split; [by apply list_elem_of_further|done]).
        -- rewrite decide_False; [done|].
           intros [[->|?]%elem_of_cons Hret]; [|by apply Hr].
           unfold returns in Hret. congruence.
    + rewrite decide_True by done.
      set (h1 := Heap (<[x := executed (job_at h0 x)]> (jobs_mem h))
                      (sets_mem h) (calls h ++ [x])).
      destruct (IH Hnd (S w) (pred u) h1)
        as (que & h' & Hrun & Hun & Hsets & Hcalls & Hjobs).
      { intros r Hr. rewrite <- (Hsame r) by by apply list_elem_of_further.
        unfold job_at, h1; simpl. rewrite lookup_total_insert_ne; [done|].
        by intros ->. }
      exists que, h'. split_and!; [exact Hrun| |by rewrite Hsets| |].
      * rewrite Hun, filter_cons_True by done. simpl. lia.
      * rewrite Hcalls. simpl. by rewrite <- app_assoc.
      * intros r. rewrite Hjobs. destruct (decide (r = x)) as [->|Hne].
        -- rewrite decide_False
             by (intros [Hr _]; by apply elem_of_taken in Hr).
           rewrite decide_True by (split; [apply list_elem_of_here|done]).
           simpl. by rewrite lookup_insert_eq.
        -- simpl. rewrite lookup_insert_ne by done.
           destruct (decide (r ∈ taken h0 (S w) l ∧ returns h0 r)) as [[Hr ?]|Hr].
           ++ by rewrite decide_True
                by (split; [by apply list_elem_of_further|done]).
           ++ rewrite decide_False; [done|].
              intros [[?|?]%elem_of_cons ?]; [done|]. by apply Hr.
Qed.

(** The first part of [__exec_jobs], inline or with workers: the callbacks
    invoked, and how it ends. *)
Lemma run_jobs_spec self l h :
  NoDup l →
  ∃ h',
    (if decide (__n_threads self = 1%nat) then for_each l Job_exec
     else λ h,
       let n_workers := if decide (__n_threads self = 0%nat) then length l
                        else __n_threads self in
       let '(que, h') := start_workers n_workers (MkQueue l (length l)) h in
       if decide (unfinished_tasks que = 0%nat) then (Ok (), h')
       else (Hang, h')) h
    = (match first_exn h l with
       | None => Ok ()
       | Some e => if decide (__n_threads self = 1%nat) then Raise e else Hang
       end, h')
    ∧ invoked_post (taken h (n_workers self (length l)) l) h h'.
Proof.
  intros Hnd. unfold n_workers. case_decide as Hinline.
  - destruct (for_each_Job_exec h l Hnd h) as (h' & Hrun & Hsets & Hcalls & Hjobs);
      [done|].
    exists h'. split; [|by split]. rewrite Hrun. by destruct (first_exn h l).
  - set (w := if decide (__n_threads self = 0%nat) then length l
              else __n_threads self).
    destruct (start_workers_spec h l Hnd w (length l) h)
      as (que & h' & Hrun & Hun & Hsets & Hcalls & Hjobs); [done|].
    exists h'. split; [|by split]. cbv zeta. fold w. rewrite Hrun.
    destruct (first_exn h l) as [e|] eqn:Hexn.
    + rewrite decide_False; [done|]. rewrite Hun.
      pose proof (first_exn_raises h l e Hexn) as Hlt.
      destruct (taken_prefix h w l) as [k Hk].
      assert (length (filter (returns h) (taken h w l))
              ≤ length (filter (returns h) l))%nat as Hle.
      { rewrite Hk at 2. rewrite filter_app, length_app. lia. }
      lia.
    + rewrite decide_True; [done|]. rewrite Hun.
      pose proof (proj1 (first_exn_None h l) Hexn) as Hall.
      rewrite taken_all, filter_returns_all; [lia|done|done|].
      unfold w. case_decide; [|done]. intros Hl. by destruct l.
Qed.

Lemma for_each_recompute self ref_dt l :
  ∀ h, NoDup l → (∀ r, r ∈ l → r ∈ set_at h (__jobs self)) →
  ∃ h', for_each l (λ job,
          let* _ := Job_calc_next_exec job ref_dt in
          let* h := get_heap in
          if has_attempts_remaining (job_at h job) then ret ()
          else delete_job self job) h = (Ok (), h')
    ∧ calls h' = calls h
    ∧ (∀ r, jobs_mem h' !! r =
         if decide (r ∈ l) then Some (recomputed ref_dt (job_at h r))
         else jobs_mem h !! r)
    ∧ set_at h' (__jobs self) =
        filter (λ r, r ∉ l ∨
                  has_attempts_remaining (recomputed ref_dt (job_at h r)))
               (set_at h (__jobs self))
    ∧ (∀ l', l' ≠ __jobs self → sets_mem h' !! l' = sets_mem h !! l').
Proof.
  induction l as [|x l IH]; intros h Hnd Hin.
  - exists h. simpl. split_and!; try done.
    apply set_eq. intros r. rewrite elem_of_filter.
      split; [|tauto]. intros ?; split; [|done]. left. apply not_elem_of_nil.
  - apply NoDup_cons in Hnd as [Hx Hnd].
    set (j := recomputed ref_dt (job_at h x)).
    set (h1 := put_job x j h).
    set (h2 := if has_attempts_remaining j then h1
               else put_set (__jobs self) (set_at h1 (__jobs self) ∖ {[x]}) h1).
    assert (Hstep :
      (let* _ := Job_calc_next_exec x ref_dt in
       let* h := get_heap in
       if has_attempts_remaining (job_at h x) then ret ()
       else delete_job self x) h = (Ok (), h2)).
    { unfold bind, Job_calc_next_exec, modify, get_heap.
      change (put_job x _ h) with h1.
      assert (job_at h1 x = j) as ->.
      { unfold h1. rewrite job_at_put_job. by rewrite decide_True. }
      unfold h2. destruct (has_attempts_remaining j); [done|].
      unfold delete_job, bind, get_heap.
      rewrite decide_True; [done|].
      unfold h1, set_at, put_job; simpl.
      apply Hin, list_elem_of_here. }
    assert (Hjobs2 : jobs_mem h2 = jobs_mem h1).
    { unfold h2. by destruct (has_attempts_remaining j). }
    assert (Hat : ∀ r, r ≠ x → job_at h2 r = job_at h r).
    { intros r Hr. unfold job_at. rewrite Hjobs2. unfold h1, put_job; simpl.
      by rewrite lookup_total_insert_ne. }
    assert (Hset2 : set_at h2 (__jobs self) =
                    if has_attempts_remaining j then set_at h (__jobs self)
                    else set_at h (__jobs self) ∖ {[x]}).
    { unfold h2. destruct (has_attempts_remaining j); [done|].
      rewrite set_at_put_set. by rewrite decide_True. }
    destruct (IH h2 Hnd) as (h' & Hrun & Hcalls & Hjobs & Hset & Hother).
    { intros r Hr. rewrite Hset2.
      assert (r ≠ x) by (intros ->; done).
      assert (r ∈ set_at h (__jobs self)) by by apply Hin, list_elem_of_further.
      destruct (has_attempts_remaining j); set_solver. }
    exists h'. split_and!.
    + change (for_each (x :: l) ?b) with (let* _ := b x in for_each l b).
      rewrite (bind_ok _ _ _ _ _ Hstep). exact Hrun.
    + rewrite Hcalls. unfold h2. by destruct (has_attempts_remaining j).
    + intros r. rewrite Hjobs.
      destruct (decide (r = x)) as [->|Hne].
      * rewrite decide_False by done.
        rewrite decide_True by apply list_elem_of_here.
        rewrite Hjobs2. unfold h1, put_job; simpl. by rewrite lookup_insert_eq.
      * rewrite (Hat r Hne). rewrite Hjobs2. unfold h1, put_job; simpl.
        rewrite lookup_insert_ne by done.
        destruct (decide (r ∈ l)) as [Hrl|Hrl].
        -- by rewrite decide_True by by apply list_elem_of_further.
        -- rewrite decide_False; [done|]. by intros [?|?]%elem_of_cons.
    + rewrite Hset, Hset2. apply set_eq. intros r.
      rewrite !elem_of_filter.
      destruct (decide (r = x)) as [->|Hne].
      * fold j. destruct (has_attempts_remaining j) eqn:Hj.
        -- split; [intros [_ ?]; split; [by right|done]|].
           intros [_ ?]. split; [by left|done].
        -- split; [set_solver|].
           intros [[Hnin|Habs] _]; [|done].
           exfalso. apply Hnin, list_elem_of_here.
      * rewrite (Hat r Hne).
        assert (r ∈ x :: l ↔ r ∈ l) as Hmem.
        { rewrite elem_of_cons. tauto. }
        rewrite Hmem.
        destruct (has_attempts_remaining j); set_solver.
    + intros l' Hl'. rewrite (Hother l' Hl'). unfold h2.
      destruct (has_attempts_remaining j); [done|].
      unfold put_set; simpl. by rewrite lookup_insert_ne.
Qed.

Lemma n_workers_pos self (l : list positive) :
  l ≠ [] → n_workers self (length l) ≠ 0%nat.
Proof.
  intros Hl. unfold n_workers. repeat case_decide; [done| |done].
  by destruct l.
Qed.

(** [__exec_jobs] on a list of distinct registered jobs whose callbacks
    return: it returns the length of the list; every callback of the list
    has been invoked (in list order in this model of the workers), every
    job of the list recomputed, and those without attempts left deleted. *)
Lemma exec_jobs_list_returns self l ref_dt h :
  NoDup l → (∀ r, r ∈ l → r ∈ set_at h (__jobs self)) →
  (∀ r, r ∈ l → returns h r) →
  ∃ h', __exec_jobs self l ref_dt h = (Ok (Z.of_nat (length l)), h')
    ∧ calls h' = calls h ++ l
    ∧ tick_post self l ref_dt h h'.
Proof.
  intros Hnd Hin Hret.
  destruct (run_jobs_spec self l h Hnd) as (h1 & Hphase1 & [Hsets1 Hcalls1 Hjobs1]).
  rewrite (proj2 (first_exn_None h l) Hret) in Hphase1.
  rewrite (taken_all h _ l Hret (n_workers_pos self l)) in Hcalls1, Hjobs1.
  assert (Hat1 : ∀ r, r ∈ l → job_at h1 r = executed (job_at h r)).
  { intros r Hr. unfold job_at at 1. rewrite lookup_total_alt, Hjobs1.
    by rewrite decide_True by (split; [done|by apply Hret]). }
  assert (Hout1 : ∀ r, r ∉ l → jobs_mem h1 !! r = jobs_mem h !! r).
  { intros r Hr. rewrite Hjobs1. by rewrite decide_False by by intros [? _]. }
  destruct (for_each_recompute self ref_dt l h1 Hnd)
    as (h' & Hrun2 & Hcalls2 & Hjobs2 & Hset2 & Hother2).
  { intros r Hr. unfold set_at. rewrite Hsets1. by apply Hin. }
  exists h'. split_and!.
  - unfold __exec_jobs. rewrite (bind_ok _ _ _ _ _ Hphase1).
    by rewrite (bind_ok _ _ _ _ _ Hrun2).
  - by rewrite Hcalls2, Hcalls1.
  - split.
    + intros r. rewrite Hjobs2. destruct (decide (r ∈ l)) as [Hr|Hr].
      * unfold after_tick. by rewrite (Hat1 r Hr).
      * by apply Hout1.
    + rewrite Hset2.
      assert (set_at h1 (__jobs self) = set_at h (__jobs self)) as ->.
      { unfold set_at. by rewrite Hsets1. }
      apply set_eq. intros r. rewrite !elem_of_filter.
      destruct (decide (r ∈ l)) as [Hr|Hr].
      * unfold after_tick. by rewrite (Hat1 r Hr).
      * tauto.
    + intros l' Hl'. by rewrite Hother2, Hsets1.
Qed.

(** [__exec_jobs] on a list of distinct jobs one of whose callbacks raises:
    inline the first exception leaves the method, with workers the method
    does not return; either way no job is recomputed and none deleted. *)
Lemma exec_jobs_list_aborts self l ref_dt h e :
  NoDup l → first_exn h l = Some e →
  ∃ h', __exec_jobs self l ref_dt h
        = (if decide (__n_threads self = 1%nat) then Raise e else Hang, h')
    ∧ invoked_post (taken h (n_workers self (length l)) l) h h'.
Proof.
  intros Hnd Hexn.
  destruct (run_jobs_spec self l h Hnd) as (h1 & Hphase1 & Hpost).
  rewrite Hexn in Hphase1.
  exists h1. split; [|done]. unfold __exec_jobs.
  case_decide.
  - by rewrite (bind_raise _ _ _ _ _ Hphase1).
  - by rewrite (bind_hang _ _ _ _ Hphase1).
Qed.

(** The list [exec_jobs] hands to [__exec_jobs]. *)
Definition selected (self : Scheduler) (force_exec_all : bool) (now : Z)
    (h : heap) : list positive :=
  let ref_dt := Datetime now (__tzinfo self) in
  if force_exec_all then set_iter (set_at h (__jobs self))
  else filtered_jobs (__max_exec self) (job_priority self h ref_dt)
         (sorted_reverse (job_priority self h ref_dt)
                         (set_iter (set_at h (__jobs self)))).

Lemma exec_jobs_selected self force now h :
  exec_jobs self force now h
  = __exec_jobs self (selected self force now h)
                (Datetime now (__tzinfo self)) h.
Proof. unfold exec_jobs, selected, bind, get_heap. by destruct force. Qed.

Lemma set_iter_NoDup (s : gset positive) : NoDup (set_iter s).
Proof. rewrite set_iter_perm. apply NoDup_elements. Qed.

Lemma elem_of_set_iter (s : gset positive) r : r ∈ set_iter s ↔ r ∈ s.
Proof. rewrite set_iter_perm. apply elem_of_elements. Qed.

Lemma length_set_iter (s : gset positive) : length (set_iter s) = size s.
Proof. by rewrite set_iter_perm. Qed.

Lemma sorted_jobs_perm (key : positive → Qc) (s : gset positive) :
  sorted_reverse key (set_iter s) ≡ₚ elements s.
Proof. by rewrite sorted_reverse_perm, set_iter_perm. Qed.

Lemma selected_due self now h :
  selected self false now h
  = capped (__max_exec self)
      (due_jobs (job_priority self h (Datetime now (__tzinfo self)))
         (sorted_reverse (job_priority self h (Datetime now (__tzinfo self)))
                         (set_iter (set_at h (__jobs self))))).
Proof.
  unfold selected. apply filtered_jobs_sorted, sorted_reverse_descending.
Qed.

Lemma selected_NoDup self force now h : NoDup (selected self force now h).
Proof.
  destruct force; [apply set_iter_NoDup|].
  rewrite selected_due. unfold capped, due_jobs.
  assert (NoDup (filter
    (λ r, (0 < job_priority self h (Datetime now (__tzinfo self)) r)%Qc)
    (sorted_reverse (job_priority self h (Datetime now (__tzinfo self)))
                    (set_iter (set_at h (__jobs self)))))) as Hnd.
  { apply NoDup_filter. rewrite sorted_reverse_perm. apply set_iter_NoDup. }
  case_decide; [done|].
  eapply sublist_NoDup; [done|apply sublist_take].
Qed.

Lemma selected_registered self force now h r :
  r ∈ selected self force now h → r ∈ set_at h (__jobs self).
Proof.
  destruct force; [unfold selected; by rewrite elem_of_set_iter|].
  rewrite selected_due. unfold capped, due_jobs. intros Hr.
  assert (r ∈ filter
    (λ r, (0 < job_priority self h (Datetime now (__tzinfo self)) r)%Qc)
    (sorted_reverse (job_priority self h (Datetime now (__tzinfo self)))
                    (set_iter (set_at h (__jobs self))))) as Hf.
  { case_decide; [done|]. eapply elem_of_sublist; [exact Hr|apply sublist_take]. }
  apply list_elem_of_filter in Hf as [_ Hf].
  rewrite sorted_reverse_perm in Hf. by apply elem_of_set_iter.
Qed.

(** A tick in which the callbacks of the selected jobs return: it returns
    the count of the selected jobs. *)
Lemma exec_jobs_returns self force now h :
  (∀ r, r ∈ selected self force now h → returns h r) →
  ∃ h', exec_jobs self force now h
        = (Ok (Z.of_nat (length (selected self force now h))), h')
    ∧ calls h' = calls h ++ selected self force now h
    ∧ tick_post self (selected self force now h)
                (Datetime now (__tzinfo self)) h h'.
Proof.
  rewrite exec_jobs_selected. apply exec_jobs_list_returns.
  - apply selected_NoDup.
  - intros r. apply selected_registered.
Qed.

(** A tick in which the callback of a selected job raises. *)
Lemma exec_jobs_aborts self force now h e :
  first_exn h (selected self force now h) = Some e →
  ∃ h', exec_jobs self force now h
        = (if decide (__n_threads self = 1%nat) then Raise e else Hang, h')
    ∧ invoked_post
        (taken h (n_workers self (length (selected self force now h)))
               (selected self force now h)) h h'.
Proof.
  rewrite exec_jobs_selected. apply exec_jobs_list_aborts, selected_NoDup.
Qed.

(** What a tick leaves alone, however it ends: the sets other than the
    scheduler's, which only loses members; the jobs it did not select; of
    any job all but the attempts and the next-due instant. *)
Record tick_frame (self : Scheduler) (l : list positive) (h h' : heap)
    : Prop := TickFrame {
  tf_other_sets : ∀ l', l' ≠ __jobs self → sets_mem h' !! l' = sets_mem h !! l';
  tf_set : set_at h' (__jobs self) ⊆ set_at h (__jobs self);
  tf_calls : ∃ ran, calls h' = calls h ++ ran ∧ ran `prefix_of` l;
  tf_out : ∀ r, r ∉ l →
             jobs_mem h' !! r = jobs_mem h !! r
             ∧ (r ∈ set_at h' (__jobs self) ↔ r ∈ set_at h (__jobs self));
  tf_job : ∀ r, ∃ n d, job_at h' r = set_next_due d (set_attempts n (job_at h r)) }.

Lemma job_unchanged (j : Job) :
  j = set_next_due (next_due j) (set_attempts (attempts j) j).
Proof. by destruct j. Qed.

Lemma exec_jobs_frame self force now h :
  tick_frame self (selected self force now h) h (exec_jobs self force now h).2.
Proof.
  destruct (first_exn h (selected self force now h)) as [e|] eqn:Hexn.
  - destruct (exec_jobs_aborts self force now h e Hexn)
      as (h' & -> & [Hsets Hcalls Hjobs]).
    cbn [snd]. split.
    + intros l' _. by rewrite Hsets.
    + unfold set_at. by rewrite Hsets.
    + eexists. split; [exact Hcalls|apply taken_prefix].
    + intros r Hr. unfold set_at. rewrite Hsets. split; [|done].
      rewrite Hjobs. rewrite decide_False; [done|].
      intros [Hin _]. by apply elem_of_taken in Hin.
    + intros r. specialize (Hjobs r). case_decide.
      * exists (S (attempts (job_at h r))), (next_due (job_at h r)).
        rewrite (job_at_lookup_Some h' r _ Hjobs). by destruct (job_at h r).
      * exists (attempts (job_at h r)), (next_due (job_at h r)).
        rewrite (job_at_lookup h h' r Hjobs). apply job_unchanged.
  - pose proof (proj1 (first_exn_None _ _) Hexn) as Hret.
    destruct (exec_jobs_returns self force now h Hret)
      as (h' & -> & Hcalls & [Hjobs Hset Hother]).
    cbn [snd]. split.
    + exact Hother.
    + rewrite Hset. intros r. rewrite elem_of_filter. tauto.
    + eexists. split; [exact Hcalls|done].
    + intros r Hr. split.
      * rewrite Hjobs. by rewrite decide_False.
      * rewrite Hset, elem_of_filter. tauto.
    + intros r. specialize (Hjobs r). case_decide.
      * eexists _, _. rewrite (job_at_lookup_Some h' r _ Hjobs).
        reflexivity.
      * exists (attempts (job_at h r)), (next_due (job_at h r)).
        rewrite (job_at_lookup h h' r Hjobs). apply job_unchanged.
Qed.

End tick.

(** ** Runs of ticks *)

Section runs.
Context {JM : JobModule} {SO : PySetOrder} {CB : Callbacks}.

(** The store after a sequence of calls [exec_jobs(force_exec_all)], each
    with the clock reading of its call, whatever each call returned or
    raised (the caller may catch the exception and tick again).  A call
    that does not return ends a run: the ticks after it here are ticks no
    program makes, so that what holds after every sequence of ticks holds
    after every run. *)
Fixpoint run_ticks (self : Scheduler) (ticks : list (bool * Z)) (h : heap)
    : heap :=
  match ticks with
  | [] => h
  | (force, now) :: rest => run_ticks self rest (exec_jobs self force now h).2
  end.

(** In how many of these ticks the job [r] was selected for dispatch (in
    a tick that returns every selected job is run, once). *)
Fixpoint dispatch_count (self : Scheduler) (r : positive)
    (ticks : list (bool * Z)) (h : heap) : nat :=
  match ticks with
  | [] => 0
  | (force, now) :: rest =>
      (if decide (r ∈ selected self force now h) then 1 else 0)
      + dispatch_count self r rest (exec_jobs self force now h).2
  end.

(** Every tick of the run returns: no callback of a job it selects
    raises. *)
Fixpoint ticks_return (self : Scheduler) (ticks : list (bool * Z))
    (h : heap) : Prop :=
  match ticks with
  | [] => True
  | (force, now) :: rest =>
      (∀ job, job ∈ selected self force now h →
              callback_raises (job_at h job) = None)
      ∧ ticks_return self rest (exec_jobs self force now h).2
  end.

(** One tick, seen from one job: a job that is not selected stays as it
    is; a selected job, when the callbacks of the selected jobs return, is
    executed and recomputed, and stays registered when it has attempts
    left. *)
Lemma tick_job self force now h r :
  let h' := (exec_jobs self force now h).2 in
  let ref_dt := Datetime now (__tzinfo self) in
  (r ∉ selected self force now h →
     job_at h' r = job_at h r
     ∧ (r ∈ set_at h' (__jobs self) ↔ r ∈ set_at h (__jobs self)))
  ∧ ((∀ x, x ∈ selected self force now h → returns h x) →
     r ∈ selected self force now h →
     job_at h' r = after_tick ref_dt (job_at h r)
     ∧ (r ∈ set_at h' (__jobs self)
        ↔ has_attempts_remaining (after_tick ref_dt (job_at h r)))).
Proof.
  intros h' ref_dt. subst h'. split.
  - intros Hsel.
    destruct (tf_out _ _ _ _ (exec_jobs_frame self force now h) r Hsel)
      as [Hjob Hmem].
    split; [by apply job_at_lookup|done].
  - intros Hret Hsel.
    destruct (exec_jobs_returns self force now h Hret)
      as (h' & -> & _ & [Hjobs Hset _]).
    simpl. split.
    + apply job_at_lookup_Some. rewrite Hjobs. by rewrite decide_True.
    + rewrite Hset, elem_of_filter.
      pose proof (selected_registered _ _ _ _ _ Hsel). fold ref_dt. tauto.
Qed.

Lemma run_ticks_absent self r ticks :
  ∀ h, r ∉ set_at h (__jobs self) →
  dispatch_count self r ticks h = 0%nat
  ∧ (r ∉ set_at (run_ticks self ticks h) (__jobs self))
  ∧ job_at (run_ticks self ticks h) r = job_at h r.
Proof.
  induction ticks as [|[force now] rest IH]; intros h Hr; [done|].
  simpl.
  destruct (tick_job self force now h r) as [Hout _].
  assert (r ∉ selected self force now h) as Hsel.
  { intros ?. by apply Hr, (selected_registered self force now h). }
  destruct (Hout Hsel) as [Hjob Hmem].
  destruct (IH ((exec_jobs self force now h).2)) as (Hc & Hs & Hj);
    [by rewrite Hmem|].
  rewrite decide_False by done. rewrite Hc, Hj, Hjob. done.
Qed.

Lemma attempts_after_tick ref_dt j :
  attempts (after_tick ref_dt j) = S (attempts j)
  ∧ max_attempts (after_tick ref_dt j) = max_attempts j.
Proof. done. Qed.

(** A registered job with a positive [max_attempts = N] over a run of
    ticks: its attempts grow by one per dispatch, and it stays registered
    exactly while they are below [N]. *)
Lemma run_ticks_attempts self r N ticks :
  0 < N →
  ∀ h, ticks_return self ticks h →
  r ∈ set_at h (__jobs self) → max_attempts (job_at h r) = N →
  let k := Z.of_nat (dispatch_count self r ticks h) in
  let h' := run_ticks self ticks h in
  max_attempts (job_at h' r) = N
  ∧ Z.of_nat (attempts (job_at h' r)) = Z.of_nat (attempts (job_at h r)) + k
  ∧ (r ∈ set_at h' (__jobs self)
     ↔ k = 0 ∨ Z.of_nat (attempts (job_at h r)) + k < N)
  ∧ (k ≤ 1 ∨ Z.of_nat (attempts (job_at h r)) + k ≤ N).
Proof.
  intros HN. induction ticks as [|[force now] rest IH]; intros h Hticks Hr Hmax.
  { simpl. split_and!; [done|lia|tauto|lia]. }
  simpl. destruct Hticks as [Hret Hticks].
  destruct (tick_job self force now h r) as [Hout Hin].
  specialize (Hin Hret).
  set (h1 := (exec_jobs self force now h).2) in *.
  destruct (decide (r ∈ selected self force now h)) as [Hsel|Hsel].
  - destruct (Hin Hsel) as [Hjob Hmem].
    pose proof (attempts_after_tick (Datetime now (__tzinfo self)) (job_at h r))
      as [Hatt Hmx].
    rewrite <- Hjob in Hatt, Hmx, Hmem.
    assert (has_attempts_remaining (job_at h1 r)
            ↔ Z.of_nat (attempts (job_at h r)) + 1 < N) as Hhar.
    { unfold has_attempts_remaining. rewrite Hmx, Hmax, Hatt.
      rewrite orb_True, !bool_decide_spec. lia. }
    destruct (decide (r ∈ set_at h1 (__jobs self))) as [Hr1|Hr1].
    + destruct (IH h1 Hticks Hr1) as (IH1 & IH2 & IH3 & IH4); [congruence|].
      rewrite Hatt in IH2, IH3, IH4.
      assert (Z.of_nat (attempts (job_at h r)) + 1 < N) by tauto.
      split_and!; [done|lia| |lia].
      rewrite IH3. lia.
    + destruct (run_ticks_absent self r rest h1 Hr1) as (Hc & Hs & Hj).
      rewrite Hc, Hj. split_and!; [congruence|lia| |lia].
      split; [done|]. intros [?|?]; [lia|]. exfalso. apply Hr1, Hmem, Hhar. lia.
  - destruct (Hout Hsel) as [Hjob Hmem].
    destruct (IH h1 Hticks) as (IH1 & IH2 & IH3 & IH4); [tauto|congruence|].
    rewrite Hjob in IH2, IH3, IH4.
    split_and!; [done|lia| |lia].
    rewrite IH3. lia.
Qed.

End runs.

(** ** Queries and deletion by tag *)

Lemma no_tags_None (tags : option (gset string)) :
  no_tags tags = true ↔ tags = None.
Proof. destruct tags; simpl; split; done. Qed.

Lemma elem_of_select_jobs_by_tag h (s : gset positive) (t : gset string)
    (any_tag : bool) r :
  r ∈ select_jobs_by_tag h s t any_tag ↔
  r ∈ s ∧ if any_tag then t ∩ tags_of h r ≠ ∅ else t ⊆ tags_of h r.
Proof.
  unfold select_jobs_by_tag. destruct any_tag; rewrite elem_of_filter; tauto.
Qed.

Lemma select_jobs_by_tag_subseteq h (s : gset positive) t any_tag :
  select_jobs_by_tag h s t any_tag ⊆ s.
Proof. intros r. rewrite elem_of_select_jobs_by_tag. tauto. Qed.

(** The filter of [get_jobs] and [delete_jobs], as the code applies it. *)
Definition tag_filter (h : heap) (s : gset positive)
    (tags : option (gset string)) (any_tag : bool) : gset positive :=
  match tags with
  | None => s
  | Some t => select_jobs_by_tag h s t any_tag
  end.

Lemma get_jobs_eq self tags any_tag h :
  get_jobs self tags any_tag h
  = alloc_set (tag_filter h (set_at h (__jobs self)) tags any_tag) h.
Proof. unfold get_jobs, bind, get_heap. by destruct tags. Qed.

Lemma delete_jobs_eq self tags any_tag h :
  let registered := set_at h (__jobs self) in
  let to_delete := tag_filter h registered tags any_tag in
  let l := fresh (dom (sets_mem h)) in
  delete_jobs self tags any_tag h
  = (Ok (Z.of_nat (size to_delete), rebind_jobs l self),
     put_set l (registered ∖ to_delete) h).
Proof.
  unfold delete_jobs, bind, get_heap, alloc_set, ret.
  destruct tags as [t|]; simpl; [done|].
  do 3 f_equal. set_solver.
Qed.

Lemma set_at_alloc h (s : gset positive) :
  let l := fresh (dom (sets_mem h)) in
  alloc_set s h = (Ok l, put_set l s h)
  ∧ (l ∉ dom (sets_mem h))
  ∧ set_at (put_set l s h) l = s
  ∧ ∀ l', l' ∈ dom (sets_mem h) →
      l' ≠ l ∧ ∀ X, set_at (put_set l X (put_set l s h)) l' = set_at h l'.
Proof.
  intros l. pose proof (is_fresh (dom (sets_mem h))) as Hfresh. fold l in Hfresh.
  split_and!; [done|done| |].
  - rewrite set_at_put_set. by rewrite decide_True.
  - intros l' Hl'. assert (l ≠ l') by (intros ->; done).
    split; [done|]. intros X.
    rewrite !set_at_put_set. by rewrite !decide_False.
Qed.

(** X1.  [get_jobs] where the tag filter is as documented (no tags, some
    tags, or the empty set of tags in the mode "all"): the set returned
    holds exactly the registered jobs that pass the filter, all of them
    for no tags and for the empty set. *)
Theorem get_jobs_by_tag (self : Scheduler) (tags : option (gset string))
    (any_tag : bool) (h : heap) :
  (tags = Some ∅ → any_tag = false) →
  ∃ l h', get_jobs self tags any_tag h = (Ok l, h')
    ∧ ∀ job, job ∈ set_at h' l ↔
        job ∈ set_at h (__jobs self)
        ∧ match tags with
          | None => True
          | Some t =>
              t = ∅ ∨ if any_tag then t ∩ tags_of h job ≠ ∅
                      else t ⊆ tags_of h job
          end.
Proof.
  intros Hempty. rewrite get_jobs_eq.
  destruct (set_at_alloc h (tag_filter h (set_at h (__jobs self)) tags any_tag))
    as (-> & _ & Hl & _).
  eexists _, _. split; [done|]. intros job. rewrite Hl.
  destruct tags as [t|]; simpl; [|tauto].
  rewrite elem_of_select_jobs_by_tag.
  destruct (decide (t = ∅)) as [->|Hne].
  - rewrite (Hempty eq_refl). set_solver.
  - tauto.
Qed.

Lemma get_jobs_by_tag_witness :
  ∃ l h', get_jobs (example_scheduler 0) (Some {["a"]}) true example_heap
          = (Ok l, h')
    ∧ (2%positive ∈ set_at h' l) ∧ (3%positive ∉ set_at h' l).
Proof.
  destruct (get_jobs_by_tag (example_scheduler 0) (Some {["a"]}) true
              example_heap) as (l & h' & Hrun & Hmem).
  { intros Heq. exfalso. revert Heq. vm_compute. discriminate. }
  exists l, h'. split; [exact Hrun|].
  rewrite !Hmem. split.
  - split; [by vm_compute|]. right. by vm_compute.
  - intros [_ [Habs|Habs]]; revert Habs; by vm_compute.
Defined.

Lemma tag_filter_subseteq h (s : gset positive) tags any_tag :
  tag_filter h s tags any_tag ⊆ s.
Proof. destruct tags; [apply select_jobs_by_tag_subseteq|done]. Qed.

Lemma tag_filter_put_set h l X (s : gset positive) tags any_tag :
  tag_filter (put_set l X h) s tags any_tag = tag_filter h s tags any_tag.
Proof. done. Qed.

Lemma tag_filter_difference h (s : gset positive) tags any_tag :
  tag_filter h (s ∖ tag_filter h s tags any_tag) tags any_tag = ∅.
Proof.
  destruct tags as [t|]; simpl; [|set_solver].
  apply set_eq. intros r.
  rewrite elem_of_select_jobs_by_tag, elem_of_difference,
    elem_of_select_jobs_by_tag.
  set_solver.
Qed.

(** X2.  [delete_jobs] where the tag filter is as documented: the jobs left
    are the registered jobs that do not pass the filter, the count returned
    is the number removed (all of them for no tags and for the empty set),
    and the same call once more returns 0. *)
Theorem delete_jobs_by_tag (self : Scheduler) (tags : option (gset string))
    (any_tag : bool) (h : heap) :
  (tags = Some ∅ → any_tag = false) →
  let registered := set_at h (__jobs self) in
  ∃ n self' h', delete_jobs self tags any_tag h = (Ok (n, self'), h')
    ∧ (∀ job, job ∈ set_at h' (__jobs self') ↔
         job ∈ registered
         ∧ ¬ match tags with
             | None => True
             | Some t =>
                 t = ∅ ∨ if any_tag then t ∩ tags_of h job ≠ ∅
                         else t ⊆ tags_of h job
             end)
    ∧ n = Z.of_nat (size registered)
          - Z.of_nat (size (set_at h' (__jobs self')))
    ∧ (tags = None ∨ tags = Some ∅ →
       set_at h' (__jobs self') = ∅ ∧ n = Z.of_nat (size registered))
    ∧ ∃ self'' h'',
        delete_jobs self' tags any_tag h' = (Ok (0, self''), h'').
Proof.
  intros Hempty registered.
  pose proof (delete_jobs_eq self tags any_tag h) as Hrun. simpl in Hrun.
  fold registered in Hrun.
  set (to_delete := tag_filter h registered tags any_tag) in *.
  set (l := fresh (dom (sets_mem h))) in *.
  set (h' := put_set l (registered ∖ to_delete) h) in *.
  assert (Hsub : to_delete ⊆ registered) by apply tag_filter_subseteq.
  assert (Hl : set_at h' (__jobs (rebind_jobs l self)) = registered ∖ to_delete).
  { unfold h'. simpl. rewrite set_at_put_set. by rewrite decide_True. }
  assert (Hmatch : ∀ job, job ∈ to_delete ↔
            job ∈ registered
            ∧ match tags with
              | None => True
              | Some t =>
                  t = ∅ ∨ if any_tag then t ∩ tags_of h job ≠ ∅
                          else t ⊆ tags_of h job
              end).
  { intros job. unfold to_delete. destruct tags as [t|]; simpl; [|tauto].
    rewrite elem_of_select_jobs_by_tag.
    destruct (decide (t = ∅)) as [->|Hne]; [|tauto].
    rewrite (Hempty eq_refl). set_solver. }
  exists (Z.of_nat (size to_delete)), (rebind_jobs l self), h'.
  split_and!; [exact Hrun| | | |].
  - intros job. rewrite Hl, elem_of_difference, Hmatch. tauto.
  - rewrite Hl, size_difference by done.
    apply subseteq_size in Hsub. lia.
  - intros Hnone.
    assert (to_delete = registered) as Hall.
    { apply set_eq. intros job. rewrite Hmatch.
      destruct Hnone as [->| ->]; tauto. }
    rewrite Hl, Hall. split; [set_solver|done].
  - pose proof (delete_jobs_eq (rebind_jobs l self) tags any_tag h') as Hrun2.
    simpl in Hrun2. eexists _, _. rewrite Hrun2. do 3 f_equal.
    change (set_at h' l) with (set_at h' (__jobs (rebind_jobs l self))).
    rewrite Hl. unfold h'. rewrite tag_filter_put_set.
    unfold to_delete. by rewrite tag_filter_difference.
Qed.

Lemma delete_jobs_by_tag_witness :
  ∃ self' h' self'' h'',
    delete_jobs (example_scheduler 0) (Some {["a"]}) true example_heap
    = (Ok (2, self'), h')
    ∧ delete_jobs self' (Some {["a"]}) true h' = (Ok (0, self''), h'').
Proof.
  destruct (delete_jobs_by_tag (example_scheduler 0) (Some {["a"]}) true
              example_heap) as (n & self' & h' & Hrun & _ & Hn & _ & Hagain).
  { intros Heq. exfalso. revert Heq. vm_compute. discriminate. }
  destruct Hagain as (self'' & h'' & Hrun2).
  exists self', h', self'', h''. split; [|exact Hrun2].
  rewrite Hrun. do 3 f_equal.
  assert (Hfst : (delete_jobs (example_scheduler 0) (Some {["a"]}) true
                    example_heap).1 = Ok (n, self')) by by rewrite Hrun.
  vm_compute in Hfst. by injection Hfst as <- _.
Defined.

(** C3, where the code leaves its docstring ("If no tags or an empty set of
    tags are given defaults to returning of all Jobs"): with the empty set
    of tags and [any_tag=True] the comparison [tags == {}] is false, the
    filter runs, and no job is returned, although three are registered. *)
Theorem get_jobs_empty_tags_any_tag :
  ∃ l h', get_jobs (example_scheduler 0) (Some ∅) true example_heap
          = (Ok l, h')
    ∧ set_at h' l = ∅
    ∧ size (set_at example_heap (__jobs (example_scheduler 0))) = 3%nat.
Proof. eexists _, _. split; [vm_compute; reflexivity|]. by vm_compute. Qed.

(** C4, where the code leaves its docstring ("If no tags or an empty set of
    tags are given defaults to the deletion of all Jobs"): with the empty
    set of tags and [any_tag=True] the call deletes nothing and returns 0,
    although three jobs are registered. *)
Theorem delete_jobs_empty_tags_any_tag :
  ∃ self' h', delete_jobs (example_scheduler 0) (Some ∅) true example_heap
              = (Ok (0, self'), h')
    ∧ size (set_at h' (__jobs self')) = 3%nat
    ∧ size (set_at example_heap (__jobs (example_scheduler 0))) = 3%nat.
Proof. eexists _, _. split; [vm_compute; reflexivity|]. by vm_compute. Qed.

(** ** The tick: selection, cap, forced execution, eviction *)

Section tick_claims.
Context {JM : JobModule} {SO : PySetOrder} {CB : Callbacks}.

(** C1.  A call [exec_jobs(force_exec_all=False)] reads the clock once
    ([ref_dt]); the priority of a job is
    [priority_function(-timedelta(ref_dt).total_seconds(), job, max_exec,
    len(jobs))]; the jobs are sorted by descending priority; the jobs to
    dispatch are those of positive priority, in that order, cut after the
    first [max_exec] of them unless [max_exec] is 0.  When the callbacks of
    these jobs return, each of them is invoked once (in that order when the
    jobs run inline), the call returns their number, and no other job is
    touched.  When the callback of one of them raises, the call returns no
    number: inline the jobs are run in that order up to that job and its
    exception leaves [exec_jobs]; with worker threads [exec_jobs] does not
    return.  Either way the jobs taken are the first of the list, no job
    is recomputed and none leaves the job set. *)
Theorem exec_jobs_dispatches_due_jobs (self : Scheduler) (now : Z) (h : heap) :
  let ref_dt := Datetime now (__tzinfo self) in
  let registered := set_at h (__jobs self) in
  let priority := λ job,
    __priority_function self
      (- total_seconds (Job_timedelta (job_at h job) ref_dt))%Qc
      (job_at h job) (__max_exec self) (Z.of_nat (size registered)) in
  let sorted_jobs := sorted_reverse priority (set_iter registered) in
  let due := filter (λ job, (0 < priority job)%Qc) sorted_jobs in
  let dispatched :=
    if decide (__max_exec self = 0) then due
    else take (Z.to_nat (__max_exec self)) due in
  sorted_jobs ≡ₚ elements registered
  ∧ descending priority sorted_jobs
  ∧ ((∀ job, job ∈ dispatched → callback_raises (job_at h job) = None) →
     ∃ h', exec_jobs self false now h = (Ok (Z.of_nat (length dispatched)), h')
       ∧ calls h' ≡ₚ calls h ++ dispatched
       ∧ (__n_threads self = 1%nat → calls h' = calls h ++ dispatched)
       ∧ ∀ job, jobs_mem h' !! job =
           if decide (job ∈ dispatched)
           then Some (after_tick ref_dt (job_at h job))
           else jobs_mem h !! job)
  ∧ (∀ pre job post e,
       dispatched = pre ++ job :: post →
       (∀ r, r ∈ pre → callback_raises (job_at h r) = None) →
       callback_raises (job_at h job) = Some e →
       ∃ ran h',
         exec_jobs self false now h
         = (if decide (__n_threads self = 1%nat) then Raise e else Hang, h')
         ∧ calls h' ≡ₚ calls h ++ ran
         ∧ pre ++ [job] `prefix_of` ran
         ∧ ran `prefix_of` dispatched
         ∧ (__n_threads self = 1%nat → calls h' = calls h ++ pre ++ [job])
         ∧ set_at h' (__jobs self) = set_at h (__jobs self)
         ∧ ∀ r, jobs_mem h' !! r =
             if decide (r ∈ ran ∧ callback_raises (job_at h r) = None)
             then Some (executed (job_at h r)) else jobs_mem h !! r).
Proof.
  intros ref_dt registered priority sorted_jobs due dispatched.
  split; [apply sorted_jobs_perm|].
  split; [apply sorted_reverse_descending|].
  assert (Hsel : selected self false now h = dispatched)
    by apply selected_due.
  split.
  - intros Hret. rewrite <- Hsel in Hret.
    destruct (exec_jobs_returns self false now h Hret)
      as (h' & Hrun & Hcalls & [Hjobs _ _]).
    rewrite Hsel in Hrun, Hcalls, Hjobs.
    exists h'. split_and!; [exact Hrun|by rewrite Hcalls|by intros _|exact Hjobs].
  - intros pre job post e Hsplit Hpre Hjob.
    assert (Hexn : first_exn h (selected self false now h) = Some e).
    { rewrite Hsel, Hsplit. by apply first_exn_Some. }
    destruct (exec_jobs_aborts self false now h e Hexn)
      as (h' & Hrun & [Hsets Hcalls Hjobs]).
    rewrite Hsel in Hcalls, Hjobs.
    assert (Hw : ∃ w, n_workers self (length dispatched) = S w).
    { pose proof (n_workers_pos self dispatched) as Hpos.
      destruct (n_workers self (length dispatched)); [|by eexists].
      exfalso. apply Hpos; [|done]. rewrite Hsplit. by destruct pre. }
    destruct Hw as [w Hw].
    exists (taken h (n_workers self (length dispatched)) dispatched), h'.
    split_and!.
    + exact Hrun.
    + by rewrite Hcalls.
    + rewrite Hw, Hsplit. by apply taken_first.
    + apply taken_prefix.
    + intros Hinline. rewrite Hcalls. unfold n_workers.
      rewrite decide_True by done. rewrite Hsplit, taken_one; [done|done|].
      unfold returns. congruence.
    + unfold set_at. by rewrite Hsets.
    + exact Hjobs.
Qed.

(** C5.  Without [force_exec_all], a registered job whose priority is not
    positive is not dispatched, whatever [max_exec] is and however the call
    ends: its callback is not invoked and the job object is as before.
    With [force_exec_all], when the callbacks of the registered jobs
    return, every registered job is dispatched, whatever its priority and
    whatever [max_exec] is, and the call returns the number of registered
    jobs; when the callback of a registered job raises, the forced call
    returns no number: inline the jobs are run in the iteration order of
    the job set up to that job and its exception leaves [exec_jobs], so
    that the jobs after it are not dispatched; with worker threads
    [exec_jobs] does not return. *)
Theorem exec_jobs_skips_idle_and_forces_all (self : Scheduler) (now : Z)
    (h : heap) :
  let ref_dt := Datetime now (__tzinfo self) in
  let registered := set_at h (__jobs self) in
  (∃ res ran h', exec_jobs self false now h = (res, h')
     ∧ calls h' = calls h ++ ran
     ∧ ∀ job, job ∈ registered →
         (job_priority self h ref_dt job ≤ 0)%Qc →
         (job ∉ ran) ∧ jobs_mem h' !! job = jobs_mem h !! job)
  ∧ ((∀ job, job ∈ registered → callback_raises (job_at h job) = None) →
     ∃ ran h', exec_jobs self true now h = (Ok (Z.of_nat (size registered)), h')
       ∧ calls h' = calls h ++ ran
       ∧ NoDup ran
       ∧ ∀ job, job ∈ registered →
           job ∈ ran
           ∧ jobs_mem h' !! job = Some (after_tick ref_dt (job_at h job)))
  ∧ (∀ pre job post e,
       set_iter registered = pre ++ job :: post →
       (∀ r, r ∈ pre → callback_raises (job_at h r) = None) →
       callback_raises (job_at h job) = Some e →
       ∃ h', exec_jobs self true now h
             = (if decide (__n_threads self = 1%nat) then Raise e else Hang, h')
         ∧ (__n_threads self = 1%nat →
              calls h' = calls h ++ pre ++ [job]
              ∧ ∀ r, r ∈ post → r ∈ registered ∧ r ∉ pre ++ [job])).
Proof.
  intros ref_dt registered. split_and!.
  - pose proof (exec_jobs_frame self false now h) as [_ _ (ran & Hcalls & Hran) Hout _].
    destruct (exec_jobs self false now h) as [res h'] eqn:Hrun.
    cbn [snd] in *.
    exists res, ran, h'. split_and!; [done|exact Hcalls|].
    intros job _ Hidle.
    assert (job ∉ selected self false now h) as Hsel.
    { rewrite selected_due. unfold capped, due_jobs. intros Hin.
      assert (job ∈ filter (λ r, (0 < job_priority self h ref_dt r)%Qc)
                (sorted_reverse (job_priority self h ref_dt)
                   (set_iter (set_at h (__jobs self))))) as Hf.
      { case_decide; [done|].
        eapply elem_of_sublist; [exact Hin|apply sublist_take]. }
      apply list_elem_of_filter in Hf as [Hpos _].
      by apply Qclt_not_le in Hpos. }
    split; [|by apply Hout].
    intros Hin. apply Hsel. by eapply elem_of_prefix.
  - intros Hret.
    destruct (exec_jobs_returns self true now h)
      as (h' & Hrun & Hcalls & [Hjobs _ _]).
    { intros r Hr. apply Hret. by eapply selected_registered. }
    exists (set_iter registered), h'. split_and!.
    + rewrite Hrun. unfold selected. by rewrite length_set_iter.
    + exact Hcalls.
    + apply set_iter_NoDup.
    + intros job Hjob.
      assert (job ∈ set_iter registered) as Hin by by apply elem_of_set_iter.
      split; [done|]. rewrite Hjobs. by rewrite decide_True.
  - intros pre job post e Hsplit Hpre Hraise.
    assert (Hsel : selected self true now h = pre ++ job :: post) by done.
    assert (Hexn : first_exn h (selected self true now h) = Some e).
    { rewrite Hsel. by apply first_exn_Some. }
    destruct (exec_jobs_aborts self true now h e Hexn)
      as (h' & Hrun & [_ Hcalls _]).
    exists h'. split; [exact Hrun|].
    intros Hinline. split.
    + rewrite Hcalls. unfold n_workers. rewrite decide_True by done.
      rewrite Hsel, taken_one; [done|done|]. unfold returns. congruence.
    + intros r Hr. split.
      * apply elem_of_set_iter. rewrite Hsplit. set_solver.
      * pose proof (set_iter_NoDup registered) as Hnd.
        rewrite Hsplit in Hnd.
        apply NoDup_app in Hnd as (_ & Hdisj & Hnd).
        apply NoDup_cons in Hnd as [Hjob _].
        intros [Hin|Heq%list_elem_of_singleton]%elem_of_app.
        -- apply (Hdisj r Hin). by apply list_elem_of_further.
        -- by subst r.
Qed.

(** C2.  After a tick in which the callbacks of the dispatched jobs return,
    every dispatched job has been executed and then had its next-due
    instant recomputed from the one reference instant of the tick, and the
    job set has lost exactly the dispatched jobs that have no attempts
    remaining after that.  A tick in which the callback of a dispatched job
    raises returns no number, recomputes no job and removes none.  Over any
    run of ticks that return, a registered job with [max_attempts = N > 0]
    is no longer registered once it has been dispatched [N] times, and
    [get_jobs()] then returns a set without it; counted from no attempts,
    it is dispatched at most [N] times and is registered exactly while it
    has been dispatched fewer than [N] times. *)
Theorem exec_jobs_evicts_exhausted_jobs (self : Scheduler) (h : heap) :
  (∀ force now,
     let ref_dt := Datetime now (__tzinfo self) in
     let dispatched := selected self force now h in
     ((∀ job, job ∈ dispatched → callback_raises (job_at h job) = None) →
      ∃ n h', exec_jobs self force now h = (Ok n, h')
        ∧ (∀ job, job ∈ dispatched →
             job_at h' job = recomputed ref_dt (executed (job_at h job))
             ∧ next_due (job_at h' job)
               = due_after (executed (job_at h job)) ref_dt)
        ∧ (∀ job, job ∉ dispatched → jobs_mem h' !! job = jobs_mem h !! job)
        ∧ ∀ job, job ∈ set_at h' (__jobs self) ↔
            job ∈ set_at h (__jobs self)
            ∧ ¬ (job ∈ dispatched
                 ∧ has_attempts_remaining (job_at h' job) = false))
     ∧ (∀ job e, job ∈ dispatched → callback_raises (job_at h job) = Some e →
        ∃ e' h',
          exec_jobs self force now h
          = (if decide (__n_threads self = 1%nat) then Raise e' else Hang, h')
          ∧ set_at h' (__jobs self) = set_at h (__jobs self)
          ∧ ∀ r, next_due (job_at h' r) = next_due (job_at h r)))
  ∧ (∀ job N ticks,
       ticks_return self ticks h →
       job ∈ set_at h (__jobs self) →
       max_attempts (job_at h job) = N → 0 < N →
       let k := Z.of_nat (dispatch_count self job ticks h) in
       let h' := run_ticks self ticks h in
       (k = N →
          (job ∉ set_at h' (__jobs self))
          ∧ ∀ l h'', get_jobs self None false h' = (Ok l, h'') →
                     job ∉ set_at h'' l)
       ∧ (attempts (job_at h job) = 0%nat →
          k ≤ N ∧ (job ∈ set_at h' (__jobs self) ↔ k < N))).
Proof.
  split.
  - intros force now ref_dt dispatched. split.
    + intros Hret.
      destruct (exec_jobs_returns self force now h Hret)
        as (h' & Hrun & _ & [Hjobs Hset _]).
      fold dispatched in Hrun, Hjobs, Hset. fold ref_dt in Hjobs, Hset.
      assert (Hat : ∀ job, job ∈ dispatched →
                job_at h' job = after_tick ref_dt (job_at h job)).
      { intros job Hin. apply job_at_lookup_Some. rewrite Hjobs.
        by rewrite decide_True. }
      eexists _, h'. split_and!; [exact Hrun| | |].
      * intros job Hin. rewrite (Hat job Hin). done.
      * intros job Hout. rewrite Hjobs. by rewrite decide_False.
      * intros job. rewrite Hset, elem_of_filter.
        destruct (decide (job ∈ dispatched)) as [Hin|Hout].
        -- rewrite (Hat job Hin).
           destruct (has_attempts_remaining (after_tick ref_dt (job_at h job)));
             simpl; intuition congruence.
        -- tauto.
    + intros job e Hjob Hraise.
      destruct (first_exn h dispatched) as [e'|] eqn:Hexn.
      * destruct (exec_jobs_aborts self force now h e' Hexn)
          as (h' & Hrun & [Hsets _ Hjobs]).
        exists e', h'. split_and!; [exact Hrun|unfold set_at; by rewrite Hsets|].
        intros r. specialize (Hjobs r). case_decide.
        -- by rewrite (job_at_lookup_Some h' r _ Hjobs).
        -- by rewrite (job_at_lookup h h' r Hjobs).
      * pose proof (proj1 (first_exn_None _ _) Hexn job Hjob) as Hret.
        unfold returns in Hret. congruence.
  - intros job N ticks Hticks Hreg Hmax HN k h'.
    destruct (run_ticks_attempts self job N ticks HN h Hticks Hreg Hmax)
      as (_ & _ & Hiff & Hle).
    fold k in Hiff, Hle. fold h' in Hiff.
    split.
    + intros Hk.
      assert (job ∉ set_at h' (__jobs self)) as Habsent
        by (rewrite Hiff; lia).
      split; [done|]. intros l h'' Hget. rewrite get_jobs_eq in Hget.
      destruct (set_at_alloc h' (tag_filter h' (set_at h' (__jobs self))
                                   None false)) as (Hrun & _ & Hl & _).
      rewrite Hrun in Hget. injection Hget as Hl' Hh'.
      rewrite <- Hh', <- Hl'. unfold tag_filter in Hl. rewrite Hl.
      exact Habsent.
    + intros H0. rewrite Hiff, H0. lia.
Qed.

End tick_claims.

(** ** Deleting one job *)

Lemma delete_job_eq self job h :
  delete_job self job h
  = if decide (job ∈ set_at h (__jobs self))
    then (Ok (), put_set (__jobs self) (set_at h (__jobs self) ∖ {[job]}) h)
    else (Raise (KeyError (KeyJob job)), h).
Proof. unfold delete_job, bind, get_heap. by case_decide. Qed.

(** C8.  [delete_job(job)] on a registered job removes that job object and
    no other: the members afterwards are the former members with another
    identity, whatever their state; neither a job object nor another set
    changes.  On a job that is not registered it raises ([KeyError]) and
    leaves the store, and so the job set, as it was. *)
Theorem delete_job_by_identity (self : Scheduler) (job : positive) (h : heap) :
  let registered := set_at h (__jobs self) in
  (job ∈ registered →
     ∃ h', delete_job self job h = (Ok (), h')
       ∧ (∀ r, r ∈ set_at h' (__jobs self) ↔ r ∈ registered ∧ r ≠ job)
       ∧ (size (set_at h' (__jobs self)) + 1 = size registered)%nat
       ∧ jobs_mem h' = jobs_mem h
       ∧ calls h' = calls h
       ∧ ∀ l, l ≠ __jobs self → sets_mem h' !! l = sets_mem h !! l)
  ∧ (job ∉ registered →
     delete_job self job h = (Raise (KeyError (KeyJob job)), h)).
Proof.
  intros registered. split; intros Hjob.
  - exists (put_set (__jobs self) (registered ∖ {[job]}) h).
    assert (Hset : set_at (put_set (__jobs self) (registered ∖ {[job]}) h)
                     (__jobs self) = registered ∖ {[job]}).
    { rewrite set_at_put_set. by rewrite decide_True. }
    split_and!; try done.
    + rewrite delete_job_eq. by rewrite decide_True.
    + intros r. rewrite Hset. set_solver.
    + rewrite Hset, size_difference by set_solver.
      rewrite size_singleton.
      assert (size registered ≠ 0%nat); [|lia].
      intros Hz%size_empty_inv. set_solver.
    + intros l Hl. unfold put_set; simpl. by rewrite lookup_insert_ne.
  - rewrite delete_job_eq. by rewrite decide_False.
Qed.

Lemma delete_job_by_identity_witness :
  (∃ h', delete_job (example_scheduler 0) 2%positive example_heap = (Ok (), h')
     ∧ (1%positive ∈ set_at h' 1%positive)
     ∧ (2%positive ∉ set_at h' 1%positive))
  ∧ delete_job (example_scheduler 0) 4%positive example_heap
    = (Raise (KeyError (KeyJob 4%positive)), example_heap).
Proof.
  destruct (delete_job_by_identity (example_scheduler 0) 2%positive example_heap)
    as [Hin _].
  destruct (delete_job_by_identity (example_scheduler 0) 4%positive example_heap)
    as [_ Hout].
  split.
  - destruct Hin as (h' & Hrun & Hmem & _); [by vm_compute|].
    exists h'. split; [exact Hrun|]. simpl in Hmem. rewrite !Hmem.
    split; [split; [by vm_compute|done]|]. by intros [_ ?].
  - apply Hout. by vm_compute.
Defined.

(** ** The sets handed out are copies *)

(** C10.  The set returned by [get_jobs] (whatever the tags) and by the
    property [jobs] is a new set object, not the scheduler's own one; with
    no tags, or with the empty set of tags in the default mode, and for
    [jobs], it holds the registered jobs.  Whatever the caller then makes
    of the returned set (adding, removing: any new content [X]), the
    scheduler's job set is as before. *)
Theorem get_jobs_returns_a_copy (self : Scheduler)
    (tags : option (gset string)) (any_tag : bool) (h : heap) :
  __jobs self ∈ dom (sets_mem h) →
  let registered := set_at h (__jobs self) in
  (∃ l h', get_jobs self tags any_tag h = (Ok l, h')
     ∧ l ≠ __jobs self
     ∧ (tags = None ∨ (tags = Some ∅ ∧ any_tag = false) →
        set_at h' l = registered)
     ∧ set_at h' (__jobs self) = registered
     ∧ ∀ X, set_at (put_set l X h') (__jobs self) = registered)
  ∧ (∃ l h', jobs self h = (Ok l, h')
       ∧ l ≠ __jobs self
       ∧ set_at h' l = registered
       ∧ set_at h' (__jobs self) = registered
       ∧ ∀ X, set_at (put_set l X h') (__jobs self) = registered).
Proof.
  intros Hwf registered.
  assert (Halloc : ∀ s, ∃ l h', alloc_set s h = (Ok l, h')
            ∧ l ≠ __jobs self ∧ set_at h' l = s
            ∧ set_at h' (__jobs self) = registered
            ∧ ∀ X, set_at (put_set l X h') (__jobs self) = registered).
  { intros s. destruct (set_at_alloc h s) as (Hrun & _ & Hl & Hframe).
    destruct (Hframe _ Hwf) as [Hne Hput].
    eexists _, _. split_and!; [exact Hrun|done|exact Hl| |exact Hput].
    rewrite set_at_put_set. by rewrite decide_False. }
  split.
  - rewrite get_jobs_eq.
    destruct (Halloc (tag_filter h registered tags any_tag))
      as (l & h' & Hrun & Hne & Hl & Hself & Hput).
    exists l, h'. split_and!; try done.
    intros [->|[-> ->]]; rewrite Hl; [done|]. unfold tag_filter.
    apply set_eq. intros r. rewrite elem_of_select_jobs_by_tag. set_solver.
  - unfold jobs, bind, get_heap. apply Halloc.
Qed.

Lemma get_jobs_returns_a_copy_witness :
  ∃ l h', get_jobs (example_scheduler 0) None false example_heap = (Ok l, h')
    ∧ set_at h' l = {[1%positive; 2%positive; 3%positive]}
    ∧ set_at (put_set l ∅ h') 1%positive
      = {[1%positive; 2%positive; 3%positive]}.
Proof.
  destruct (get_jobs_returns_a_copy (example_scheduler 0) None false
              example_heap) as [(l & h' & Hrun & _ & Hl & _ & Hput) _].
  { by vm_compute. }
  exists l, h'. split; [exact Hrun|]. split.
  - rewrite Hl by by left. by vm_compute.
  - simpl in Hput. rewrite Hput. by vm_compute.
Defined.

(** ** Registration *)

Section registration.
Context {JM : JobModule} {SO : PySetOrder} {CB : Callbacks}.

(** C6.  Each registration method checks the shape of [timing] first: when
    the check fails it raises [SchedulerError] with the message of its own
    discipline and leaves the whole store, and so the job set, as it was.
    The message of [once] ends with the type union it expects; those of
    the other five are constants imported from [scheduler.job]. *)
Theorem registration_rejects_wrong_shape (self : Scheduler) (v : pyvalue)
    (handle : string) (kw : JobKwargs) (ts : gset string) (w : Qc) (h : heap) :
  (check_type TimingCyclic v = false →
     cyclic self v handle kw h
     = (Raise (SchedulerError CYCLIC_TYPE_ERROR_MSG), h))
  ∧ (check_type TimingDailyUnion v = false →
     minutely self v handle kw h
     = (Raise (SchedulerError MINUTELY_TYPE_ERROR_MSG), h))
  ∧ (check_type TimingDailyUnion v = false →
     hourly self v handle kw h
     = (Raise (SchedulerError HOURLY_TYPE_ERROR_MSG), h))
  ∧ (check_type TimingDailyUnion v = false →
     daily self v handle kw h
     = (Raise (SchedulerError DAILY_TYPE_ERROR_MSG), h))
  ∧ (check_type TimingWeeklyUnion v = false →
     weekly self v handle kw h
     = (Raise (SchedulerError WEEKLY_TYPE_ERROR_MSG), h))
  ∧ (check_type TimingOnceUnion v = false →
     once self v handle ts w h
     = (Raise (SchedulerError ONCE_TYPE_ERROR_MSG), h))
  ∧ ∃ intro, ONCE_TYPE_ERROR_MSG
             = String.append intro
                 "dt.datetime | dt.timedelta | Weekday | dt.time".
Proof.
  unfold cyclic, minutely, hourly, daily, weekly, once.
  split_and!; try (by intros ->).
  by eexists.
Qed.

(** What a successful or failing [__schedule] of a job with these
    constructor arguments looks like from the caller: [Job.__init__]
    raises and nothing changes, or a new job object with these properties
    and no attempts exists and, having attempts remaining, is registered. *)
Definition registers (m : M job_ref) (self : Scheduler) (h : heap)
    (jt : JobType) (timing_list : list pyvalue) (handle : string)
    (kw : JobKwargs) : Prop :=
  match Job_validate jt timing_list (__tzinfo self) kw with
  | Some msg => m h = (Raise (SchedulerError msg), h)
  | None =>
      ∃ job h', m h = (Ok job, h')
        ∧ (job ∉ dom (jobs_mem h))
        ∧ job_at h' job = new_job jt timing_list handle (__tzinfo self) kw
        ∧ (∀ r, r ≠ job → jobs_mem h' !! r = jobs_mem h !! r)
        ∧ (∀ l, l ≠ __jobs self → sets_mem h' !! l = sets_mem h !! l)
        ∧ set_at h' (__jobs self) =
            if has_attempts_remaining
                 (new_job jt timing_list handle (__tzinfo self) kw)
            then {[job]} ∪ set_at h (__jobs self)
            else set_at h (__jobs self)
  end.

Lemma schedule_registers self jt v handle kw h :
  registers (__schedule self jt v handle kw) self h jt
            (match v with PyList l => l | _ => [v] end) handle kw.
Proof.
  unfold registers, __schedule, Job_init.
  set (tl := match v with PyList l => l | _ => [v] end).
  destruct (Job_validate jt tl (__tzinfo self) kw) as [msg|]; [done|].
  set (j := new_job jt tl handle (__tzinfo self) kw).
  set (job := fresh (dom (jobs_mem h))).
  assert (Hfresh : job ∉ dom (jobs_mem h)) by apply is_fresh.
  unfold bind, alloc_job, get_heap, modify, ret. fold job.
  destruct (has_attempts_remaining j); eexists job, _;
    (split; [reflexivity|]); (split; [exact Hfresh|]).
  - split_and!.
    + unfold job_at; simpl. by rewrite lookup_total_insert_eq.
    + intros r Hr. simpl. by rewrite lookup_insert_ne.
    + intros l Hl. simpl. by rewrite lookup_insert_ne.
    + unfold set_at; simpl. by rewrite lookup_total_insert_eq.
  - split_and!; try done.
    + unfold job_at; simpl. by rewrite lookup_total_insert_eq.
    + intros r Hr. simpl. by rewrite lookup_insert_ne.
Qed.

(** The two kinds of case of [once]: it schedules with the job type [jt]
    and the keywords [kw], or the type of its timing is no key of
    [JOB_TYPE_MAPPING]. *)
Ltac once_case Hcheck Hshape Hfields jt kw :=
  let Hreg := fresh "Hreg" in
  assert (Hreg := Hshape jt kw);
  simpl in Hreg;
  unfold once in Hreg at 1; rewrite Hcheck in Hreg;
  specialize (Hreg eq_refl);
  split; [exact Hreg|];
  let job := fresh "job" in
  let h' := fresh "h'" in
  let Hrun := fresh "Hrun" in
  intros job h' Hrun;
  destruct (Hfields jt _ kw eq_refl Hreg job h' Hrun) as (? & ? & ->);
  done.

Ltac once_raises Hcheck :=
  unfold once; rewrite Hcheck; split; [done|]; by intros ? ?.

(** C7.  [once], its timing accepted: a datetime gives a CYCLIC job with
    the one interval [timedelta()], [delay=False], [start] that datetime
    and [max_attempts=1]; a duration gives a CYCLIC job, a time of day a
    DAILY job, a weekday a WEEKLY job, each on that timing and with
    [max_attempts=1].  The job is built unless [Job.__init__] rejects
    these arguments, and whenever [once] returns a job it is a new
    object, registered, with no attempts counted. *)
Theorem once_job_shape (self : Scheduler) (v : pyvalue) (handle : string)
    (ts : gset string) (w : Qc) (h : heap) :
  check_type TimingOnceUnion v = true →
  let rest := MkKwargs 1 ts w (kw_delay Job_defaults) (kw_start Job_defaults)
                       (kw_stop Job_defaults) in
  match v with
  | PyDatetime d =>
      registers (once self v handle ts w) self h CYCLIC [PyTimedelta 0] handle
                (MkKwargs 1 ts w false (Some d) (kw_stop Job_defaults))
  | PyTimedelta _ => registers (once self v handle ts w) self h CYCLIC [v] handle rest
  | PyTime _ => registers (once self v handle ts w) self h DAILY [v] handle rest
  | PyWeekday _ => registers (once self v handle ts w) self h WEEKLY [v] handle rest
  | _ => once self v handle ts w h = (Raise (KeyError (KeyType (type_of v))), h)
  end
  ∧ ∀ job h', once self v handle ts w h = (Ok job, h') →
      (job ∉ dom (jobs_mem h))
      ∧ job ∈ set_at h' (__jobs self)
      ∧ max_attempts (job_at h' job) = 1
      ∧ attempts (job_at h' job) = 0%nat
      ∧ job_tzinfo (job_at h' job) = __tzinfo self
      ∧ match v with
        | PyDatetime d =>
            job_type (job_at h' job) = CYCLIC
            ∧ timing (job_at h' job) = [PyTimedelta 0]
            ∧ delay (job_at h' job) = false
            ∧ start (job_at h' job) = Some d
        | PyTimedelta _ =>
            job_type (job_at h' job) = CYCLIC ∧ timing (job_at h' job) = [v]
        | PyTime _ =>
            job_type (job_at h' job) = DAILY ∧ timing (job_at h' job) = [v]
        | PyWeekday _ =>
            job_type (job_at h' job) = WEEKLY ∧ timing (job_at h' job) = [v]
        | _ => False
        end.
Proof.
  intros Hcheck rest.
  assert (Hfields : ∀ jt tl kw,
    kw_max_attempts kw = 1 →
    registers (once self v handle ts w) self h jt tl handle kw →
    ∀ job h', once self v handle ts w h = (Ok job, h') →
      (job ∉ dom (jobs_mem h))
      ∧ job ∈ set_at h' (__jobs self)
      ∧ job_at h' job = new_job jt tl handle (__tzinfo self) kw).
  { intros jt tl kw Hone Hreg job h' Hrun. unfold registers in Hreg.
    destruct (Job_validate jt tl (__tzinfo self) kw); [congruence|].
    destruct Hreg as (job' & h'' & Hrun' & Hnew & Hjob & _ & _ & Hset).
    rewrite Hrun in Hrun'. injection Hrun' as <- <-.
    split_and!; [done| |done].
    rewrite Hset. unfold has_attempts_remaining, new_job; simpl.
    rewrite Hone. simpl. set_solver. }
  assert (Hshape : ∀ jt kw,
    once self v handle ts w = __schedule self jt
                                (match v with PyDatetime _ => PyTimedelta 0
                                            | _ => v end) handle kw →
    registers (once self v handle ts w) self h jt
      (match v with PyDatetime _ => [PyTimedelta 0] | PyList l => l
                  | _ => [v] end) handle kw).
  { intros jt kw ->. pose proof (schedule_registers self jt
      (match v with PyDatetime _ => PyTimedelta 0 | _ => v end) handle kw h)
      as Hreg.
    by destruct v. }
  destruct v.
  - once_case Hcheck Hshape Hfields CYCLIC rest.
  - once_case Hcheck Hshape Hfields DAILY rest.
  - once_case Hcheck Hshape Hfields CYCLIC
      (MkKwargs 1 ts w false (Some d) (kw_stop Job_defaults)).
  - once_case Hcheck Hshape Hfields WEEKLY rest.
  - once_raises Hcheck.
  - once_raises Hcheck.
  - once_raises Hcheck.
Qed.

End registration.

(** ** Construction and the timezone of the jobs held *)

Section timezone.
Context {JM : JobModule} {SO : PySetOrder} {CB : Callbacks}.

(** Every job the scheduler holds carries the scheduler's timezone. *)
Definition tz_consistent (self : Scheduler) (h : heap) : Prop :=
  ∀ job, job ∈ set_at h (__jobs self) →
         job_tzinfo (job_at h job) = __tzinfo self.

(** A call of a public method of the scheduler. *)
Inductive call :=
  | call_delete_job (job : positive)
  | call_delete_jobs (tags : option (gset string)) (any_tag : bool)
  | call_exec_jobs (force_exec_all : bool) (now : Z)
  | call_get_jobs (tags : option (gset string)) (any_tag : bool)
  | call_jobs
  | call_cyclic (v : pyvalue) (handle : string) (kw : JobKwargs)
  | call_minutely (v : pyvalue) (handle : string) (kw : JobKwargs)
  | call_hourly (v : pyvalue) (handle : string) (kw : JobKwargs)
  | call_daily (v : pyvalue) (handle : string) (kw : JobKwargs)
  | call_weekly (v : pyvalue) (handle : string) (kw : JobKwargs)
  | call_once (v : pyvalue) (handle : string) (ts : gset string) (w : Qc).

(** The scheduler and the store after a call, whatever it returned or
    raised; for a tick that does not return, the store it has reached. *)
Definition run_call (c : call) (self : Scheduler) (h : heap)
    : Scheduler * heap :=
  match c with
  | call_delete_job job => (self, (delete_job self job h).2)
  | call_delete_jobs tags any_tag =>
      match delete_jobs self tags any_tag h with
      | (Ok (_, self'), h') => (self', h')
      | (_, h') => (self, h')
      end
  | call_exec_jobs force now => (self, (exec_jobs self force now h).2)
  | call_get_jobs tags any_tag => (self, (get_jobs self tags any_tag h).2)
  | call_jobs => (self, (jobs self h).2)
  | call_cyclic v handle kw => (self, (cyclic self v handle kw h).2)
  | call_minutely v handle kw => (self, (minutely self v handle kw h).2)
  | call_hourly v handle kw => (self, (hourly self v handle kw h).2)
  | call_daily v handle kw => (self, (daily self v handle kw h).2)
  | call_weekly v handle kw => (self, (weekly self v handle kw h).2)
  | call_once v handle ts w => (self, (once self v handle ts w h).2)
  end.

Fixpoint run_calls (cs : list call) (self : Scheduler) (h : heap)
    : Scheduler * heap :=
  match cs with
  | [] => (self, h)
  | c :: cs' => let '(self', h') := run_call c self h in run_calls cs' self' h'
  end.

(** A step keeps the timezone of the scheduler, and every job held after
    it either carries that timezone or was held before with the timezone
    it has now. *)
Definition tz_step (self : Scheduler) (h : heap) (self' : Scheduler)
    (h' : heap) : Prop :=
  __tzinfo self' = __tzinfo self
  ∧ ∀ job, job ∈ set_at h' (__jobs self') →
      job_tzinfo (job_at h' job) = __tzinfo self
      ∨ (job ∈ set_at h (__jobs self)
         ∧ job_tzinfo (job_at h' job) = job_tzinfo (job_at h job)).

Lemma tz_step_consistent self h self' h' :
  tz_step self h self' h' → tz_consistent self h → tz_consistent self' h'.
Proof.
  intros [Htz Hstep] Hcons job Hjob. rewrite Htz.
  destruct (Hstep job Hjob) as [?|[Hin ->]]; [done|]. by apply Hcons.
Qed.

Lemma tz_step_refl self h : tz_step self h self h.
Proof. split; [done|]. intros job ?. by right. Qed.

Lemma tz_step_alloc_set self h (s : gset positive) :
  s ⊆ set_at h (__jobs self) → tz_step self h self (alloc_set s h).2.
Proof.
  intros Hs. split; [done|]. intros job. simpl.
  rewrite set_at_put_set. case_decide; intros Hjob; right; split; try done.
  by apply Hs.
Qed.

Lemma tz_step_schedule self jt v handle kw h :
  tz_step self h self (__schedule self jt v handle kw h).2.
Proof.
  pose proof (schedule_registers self jt v handle kw h) as Hreg.
  unfold registers in Hreg.
  destruct (Job_validate jt _ (__tzinfo self) kw).
  { rewrite Hreg. apply tz_step_refl. }
  destruct Hreg as (job & h' & -> & _ & Hjob & Hothers & _ & Hset).
  split; [done|]. intros r Hr. simpl in *.
  destruct (decide (r = job)) as [->|Hne].
  - left. by rewrite Hjob.
  - right. rewrite (job_at_lookup h h' r) by by apply Hothers.
    split; [|done]. rewrite Hset in Hr.
    destruct (has_attempts_remaining _); set_solver.
Qed.

Lemma tz_step_run_call c self h :
  tz_step self h (run_call c self h).1 (run_call c self h).2.
Proof.
  destruct c as [job|tags any_tag|force now|tags any_tag| |v ? kw|v ? kw
                 |v ? kw|v ? kw|v ? kw|v ? ts w]; cbn [run_call fst snd].
  - rewrite delete_job_eq. case_decide; [|apply tz_step_refl].
    split; [done|]. intros r. simpl.
    rewrite set_at_put_set, decide_True by done.
    intros Hr. right. split; [set_solver|done].
  - pose proof (delete_jobs_eq self tags any_tag h) as Hrun. simpl in Hrun.
    rewrite Hrun. split; [done|]. intros r. simpl.
    rewrite set_at_put_set, decide_True by done.
    intros Hr. right. split; [set_solver|done].
  - pose proof (exec_jobs_frame self force now h) as [_ Hset _ _ Hjob].
    split; [done|]. intros r Hr. right. split; [by apply Hset|].
    by destruct (Hjob r) as (n & d & ->).
  - rewrite get_jobs_eq. apply tz_step_alloc_set, tag_filter_subseteq.
  - unfold jobs, bind, get_heap. by apply tz_step_alloc_set.
  - unfold cyclic. destruct (check_type _ v);
      [apply tz_step_schedule|apply tz_step_refl].
  - unfold minutely. destruct (check_type _ v);
      [apply tz_step_schedule|apply tz_step_refl].
  - unfold hourly. destruct (check_type _ v);
      [apply tz_step_schedule|apply tz_step_refl].
  - unfold daily. destruct (check_type _ v);
      [apply tz_step_schedule|apply tz_step_refl].
  - unfold weekly. destruct (check_type _ v);
      [apply tz_step_schedule|apply tz_step_refl].
  - unfold once. destruct (check_type _ v); [|apply tz_step_refl].
    destruct v; simpl; apply tz_step_schedule || apply tz_step_refl.
Qed.

Lemma run_calls_consistent cs :
  ∀ self h, tz_consistent self h →
  tz_consistent (run_calls cs self h).1 (run_calls cs self h).2.
Proof.
  induction cs as [|c cs IH]; intros self h Hcons; [done|].
  simpl. pose proof (tz_step_run_call c self h) as Hstep.
  destruct (run_call c self h) as [self' h']. simpl in Hstep.
  apply IH. by eapply tz_step_consistent.
Qed.

(** [Scheduler.__init__], step by step. *)
Lemma Scheduler_init_eq max_exec tz priority_function jobs n_threads h :
  let supplied := from_option (set_at h) ∅ jobs in
  ∃ l h1,
    set_at h1 l = supplied
    ∧ jobs_mem h1 = jobs_mem h
    ∧ Scheduler_init max_exec tz priority_function jobs n_threads h
      = if forallb (λ r, bool_decide (job_tzinfo (job_at h r) = tz))
                   (set_iter supplied)
        then (Ok (MkScheduler max_exec tz priority_function l n_threads), h1)
        else (Raise (SchedulerError TZ_ERROR_MSG), h1).
Proof.
  intros supplied. unfold Scheduler_init.
  assert (Hnew : ∃ l h1, alloc_set ∅ h = (Ok l, h1) ∧ set_at h1 l = ∅
                   ∧ jobs_mem h1 = jobs_mem h).
  { destruct (set_at_alloc h ∅) as (Hrun & _ & Hl & _). by eexists _, _. }
  assert (Hchoice : ∃ l h1,
    match jobs with
    | Some l => if decide (set_at h l = ∅) then alloc_set ∅ else ret l
    | None => alloc_set ∅
    end h = (Ok l, h1) ∧ set_at h1 l = supplied ∧ jobs_mem h1 = jobs_mem h).
  { destruct jobs as [l0|]; simpl in *; [|exact Hnew].
    unfold supplied. case_decide as Hemp.
    - rewrite Hemp. exact Hnew.
    - by exists l0, h. }
  destruct Hchoice as (l & h1 & Hrun & Hl & Hjobs).
  exists l, h1. split_and!; [done|done|].
  unfold bind at 1, get_heap at 1.
  rewrite (bind_ok _ _ _ _ _ Hrun). unfold bind, get_heap. rewrite Hl.
  assert (Hext : forallb (λ r, bool_decide (job_tzinfo (job_at h1 r) = tz))
                         (set_iter supplied)
               = forallb (λ r, bool_decide (job_tzinfo (job_at h r) = tz))
                         (set_iter supplied)).
  { unfold job_at. by rewrite Hjobs. }
  rewrite Hext. clear Hext. destruct (forallb _ _); reflexivity.
Qed.

(** C9.  [Scheduler(tzinfo=tz, jobs=...)] raises [SchedulerError] with
    [TZ_ERROR_MSG] when a supplied job carries another timezone, and is
    constructed, holding the supplied jobs, when none does.  A scheduler
    that was constructed holds only jobs of its own timezone, and so it
    does after any sequence of calls of its methods. *)
Theorem init_rejects_timezone_mismatch (max_exec : Z) (tz : tzinfo)
    (priority_function : Qc → Job → Z → Z → Qc) (supplied_jobs : option set_ref)
    (n_threads : nat) (h : heap) :
  let supplied := from_option (set_at h) ∅ supplied_jobs in
  let init :=
    Scheduler_init max_exec tz priority_function supplied_jobs n_threads h in
  ((∃ job, job ∈ supplied ∧ job_tzinfo (job_at h job) ≠ tz) →
     ∃ h', init = (Raise (SchedulerError TZ_ERROR_MSG), h'))
  ∧ ((∀ job, job ∈ supplied → job_tzinfo (job_at h job) = tz) →
     ∃ self h', init = (Ok self, h')
       ∧ __tzinfo self = tz ∧ set_at h' (__jobs self) = supplied)
  ∧ (∀ self h', init = (Ok self, h') →
       (∀ job, job ∈ set_at h' (__jobs self) →
               job ∈ supplied ∧ job_tzinfo (job_at h' job) = __tzinfo self)
       ∧ ∀ cs job,
           job ∈ set_at (run_calls cs self h').2 (__jobs (run_calls cs self h').1) →
           job_tzinfo (job_at (run_calls cs self h').2 job)
           = __tzinfo (run_calls cs self h').1).
Proof.
  intros supplied init.
  destruct (Scheduler_init_eq max_exec tz priority_function supplied_jobs
              n_threads h) as (l & h1 & Hl & Hjobs & Hinit).
  fold supplied in Hl, Hinit. fold init in Hinit.
  assert (Hall : forallb (λ r, bool_decide (job_tzinfo (job_at h r) = tz))
                         (set_iter supplied) = true
                 ↔ ∀ job, job ∈ supplied → job_tzinfo (job_at h job) = tz).
  { rewrite forallb_forall. split.
    - intros Hf job Hjob. eapply bool_decide_eq_true_1, Hf.
      by apply list_elem_of_In, elem_of_set_iter.
    - intros Hf job Hjob%list_elem_of_In%elem_of_set_iter.
      by apply bool_decide_eq_true_2, Hf. }
  destruct (forallb _ (set_iter supplied)) eqn:Hcheck.
  - pose proof (proj1 Hall eq_refl) as Hok.
    split_and!.
    + intros (job & Hjob & Hne). by specialize (Hok job Hjob).
    + intros _. by eexists _, _.
    + intros self h' Heq. rewrite Hinit in Heq. injection Heq as <- <-.
      assert (Hcons : tz_consistent
                (MkScheduler max_exec tz priority_function l n_threads) h1).
      { intros job. simpl. rewrite Hl. intros Hjob.
        unfold job_at. rewrite Hjobs. by apply Hok. }
      split.
      * intros job Hjob. split; [by rewrite <- Hl|by apply Hcons].
      * intros cs job. by apply run_calls_consistent.
  - split_and!.
    + intros _. by eexists.
    + intros Hok. apply Hall in Hok. congruence.
    + intros self h' Heq. congruence.
Qed.

End timezone.

(** ** The theorems at the example scheduler *)

Section examples.
#[local] Existing Instance spec_job_module.
#[local] Existing Instance elements_order.
#[local] Existing Instance example_callbacks.

(** In the example store every callback returns. *)
Lemma example_heap_returns job :
  callback_raises (job_at example_heap job) = None.
Proof.
  assert (Hall : map_Forall (λ _ j, handle j = "callback")
                            (jobs_mem example_heap)).
  { apply (bool_decide_unpack _). by vm_compute. }
  unfold job_at. rewrite lookup_total_alt.
  destruct (jobs_mem example_heap !! job) as [j|] eqn:Hj; [|done].
  simpl. by rewrite (Hall job j Hj).
Qed.

(** Whether an example callback raises depends on its name alone, so the
    ticks of a run all return when every callback returns at first. *)
Lemma example_ticks_return self ticks :
  ∀ h, (∀ job, callback_raises (job_at h job) = None) →
       ticks_return self ticks h.
Proof.
  induction ticks as [|[force now] rest IH]; intros h Hall; [done|].
  split; [intros job _; apply Hall|].
  apply IH. intros job.
  destruct (tf_job _ _ _ _ (exec_jobs_frame self force now h) job)
    as (n & d & ->).
  exact (Hall job).
Qed.

(** With [max_exec = 2] and the three jobs equally overdue, the tick
    dispatches the jobs of weight 10 and 5, in this order, and returns 2.
    With the callback of job 2 raising and no cap, the tick runs the jobs
    3 and 2 and raises. *)
Lemma exec_jobs_dispatches_due_jobs_witness :
  (∃ h', exec_jobs (example_scheduler 2) false 3000000 example_heap = (Ok 2, h')
     ∧ calls h' = [3%positive; 2%positive])
  ∧ (∃ h', exec_jobs (example_scheduler 0) false 3000000 example_heap_failing
           = (Raise (PyException "RuntimeError"), h')
       ∧ calls h' = [3%positive; 2%positive]
       ∧ set_at h' 1%positive = set_at example_heap_failing 1%positive).
Proof.
  split.
  - destruct (exec_jobs_dispatches_due_jobs (example_scheduler 2) 3000000
                example_heap) as (_ & _ & Hret & _).
    destruct Hret as (h' & Hrun & _ & Hcalls & _).
    { intros job _. apply example_heap_returns. }
    exists h'. split.
    + rewrite Hrun. by vm_compute.
    + rewrite (Hcalls eq_refl). by vm_compute.
  - destruct (exec_jobs_dispatches_due_jobs (example_scheduler 0) 3000000
                example_heap_failing) as (_ & _ & _ & Habort).
    destruct (Habort [3%positive] 2%positive [1%positive]
                (PyException "RuntimeError"))
      as (ran & h' & Hrun & _ & _ & _ & Hcalls & Hset & _).
    + by vm_compute.
    + intros r ->%list_elem_of_singleton. reflexivity.
    + reflexivity.
    + exists h'. split_and!; [exact Hrun|exact (Hcalls eq_refl)|exact Hset].
Defined.

(** With the callback of job 2 raising and the jobs run inline, the tick
    that is to dispatch the jobs 3, 2 and 1 invokes 3 and 2 and raises:
    job 1, which is due and under no cap, is not dispatched, and no number
    is returned.  With two worker threads the same tick does not
    return. *)
Lemma exec_jobs_dispatches_due_jobs_counterexample :
  let self := example_scheduler 0 in
  let workers := MkScheduler 0 None linear_priority_function 1%positive 2 in
  let h := example_heap_failing in
  let priority := job_priority self h (Datetime 3000000 None) in
  filter (λ job, (0 < priority job)%Qc)
         (sorted_reverse priority (set_iter (set_at h (__jobs self))))
  = [3%positive; 2%positive; 1%positive]
  ∧ (exec_jobs self false 3000000 h).1 = Raise (PyException "RuntimeError")
  ∧ calls (exec_jobs self false 3000000 h).2 = [3%positive; 2%positive]
  ∧ (exec_jobs workers false 3000000 h).1 = Hang.
Proof. split_and!; by vm_compute. Qed.

(** One second before the jobs are due nothing is dispatched, with no cap
    at all; forcing dispatches the three jobs. *)
Lemma exec_jobs_skips_idle_and_forces_all_witness :
  (∃ res ran h',
     exec_jobs (example_scheduler 0) false (-1000000) example_heap = (res, h')
     ∧ calls h' = ran ∧ (1%positive ∉ ran))
  ∧ (∃ ran h',
       exec_jobs (example_scheduler 0) true (-1000000) example_heap = (Ok 3, h')
       ∧ calls h' = ran ∧ 1%positive ∈ ran)
  ∧ (∃ h', exec_jobs (example_scheduler 0) true (-1000000)
                     example_heap_failing
           = (Raise (PyException "RuntimeError"), h')
       ∧ calls h' = [3%positive; 2%positive]).
Proof.
  destruct (exec_jobs_skips_idle_and_forces_all (example_scheduler 0)
              (-1000000) example_heap) as (Hidle & Hforce & _).
  split_and!.
  - destruct Hidle as (res & ran & h' & Hrun & Hcalls & Hskip).
    exists res, ran, h'. split_and!; [exact Hrun|exact Hcalls|].
    apply (Hskip 1%positive); by vm_compute.
  - destruct Hforce as (ran & h' & Hrun & Hcalls & _ & Hall).
    { intros job _. apply example_heap_returns. }
    exists ran, h'. split_and!; [exact Hrun|exact Hcalls|].
    apply (Hall 1%positive). by vm_compute.
  - destruct (exec_jobs_skips_idle_and_forces_all (example_scheduler 0)
                (-1000000) example_heap_failing) as (_ & _ & Hraise).
    destruct (Hraise [3%positive] 2%positive [1%positive]
                (PyException "RuntimeError")) as (h' & Hrun & Hcalls).
    + by vm_compute.
    + intros r ->%list_elem_of_singleton. reflexivity.
    + reflexivity.
    + exists h'. split; [exact Hrun|]. by destruct (Hcalls eq_refl) as [-> _].
Defined.

(** With the callback of job 2 raising and the jobs run inline, the forced
    tick invokes the jobs 3 and 2 and raises: job 1 is registered and is
    not dispatched. *)
Lemma exec_jobs_skips_idle_and_forces_all_counterexample :
  let self := example_scheduler 0 in
  let h := example_heap_failing in
  1%positive ∈ set_at h (__jobs self)
  ∧ (exec_jobs self true 0 h).1 = Raise (PyException "RuntimeError")
  ∧ calls (exec_jobs self true 0 h).2 = [3%positive; 2%positive].
Proof. split_and!; by vm_compute. Qed.

(** Job 1 may run twice: after two forced ticks it is gone.  With the
    callback of job 2 raising, a forced tick raises and leaves the job set
    as it is. *)
Lemma exec_jobs_evicts_exhausted_jobs_witness :
  (1%positive ∉ set_at (run_ticks (example_scheduler 0) [(true, 0); (true, 1)]
                                  example_heap) 1%positive)
  ∧ (∃ e h', exec_jobs (example_scheduler 0) true 0 example_heap_failing
             = (Raise e, h')
       ∧ set_at h' 1%positive = set_at example_heap_failing 1%positive).
Proof.
  split.
  - destruct (exec_jobs_evicts_exhausted_jobs (example_scheduler 0)
                example_heap) as [_ Hrun].
    destruct (Hrun 1%positive 2 [(true, 0); (true, 1)]) as [Hgone _];
      [|by vm_compute..|].
    { apply example_ticks_return, example_heap_returns. }
    destruct Hgone as [Habsent _]; [by vm_compute|]. exact Habsent.
  - destruct (exec_jobs_evicts_exhausted_jobs (example_scheduler 0)
                example_heap_failing) as [Htick _].
    destruct (Htick true 0) as [_ Habort].
    destruct (Habort 2%positive (PyException "RuntimeError"))
      as (e & h' & Hrun & Hset & _);
      [apply (bool_decide_unpack _); by vm_compute|reflexivity|].
    by exists e, h'.
Defined.

(** With the callback of job 2 raising and the jobs run inline, job 3,
    which may run twice, has been dispatched twice after two ticks; it has
    no attempts remaining and is still registered, with the next-due
    instant it had at first and not the one a recompute gives;
    [get_jobs()] returns a set that holds it. *)
Lemma exec_jobs_evicts_exhausted_jobs_counterexample :
  let self := example_scheduler 0 in
  let h := example_heap_failing in
  let ticks := [(false, 3000000); (false, 4000000)] in
  let h' := run_ticks self ticks h in
  max_attempts (job_at h 3%positive) = 2
  ∧ dispatch_count self 3%positive ticks h = 2%nat
  ∧ calls h' = [3%positive; 2%positive; 3%positive; 2%positive]
  ∧ attempts (job_at h' 3%positive) = 2%nat
  ∧ has_attempts_remaining (job_at h' 3%positive) = false
  ∧ next_due (job_at h' 3%positive) = next_due (job_at h 3%positive)
  ∧ next_due (job_at h' 3%positive)
    ≠ due_after (job_at h' 3%positive) (Datetime 4000000 None)
  ∧ 3%positive ∈ set_at h' (__jobs self)
  ∧ 3%positive ∈ set_at (get_jobs self None false h').2
                        (fresh (dom (sets_mem h'))).
Proof. split_and!; by vm_compute. Qed.

(** A time of day is no timing of [cyclic]. *)
Lemma registration_rejects_wrong_shape_witness :
  cyclic (example_scheduler 0) (PyTime (Time 0 None)) "callback" Job_defaults
         example_heap
  = (Raise (SchedulerError CYCLIC_TYPE_ERROR_MSG), example_heap).
Proof.
  apply (registration_rejects_wrong_shape (example_scheduler 0)
           (PyTime (Time 0 None)) "callback" Job_defaults ∅ 1%Qc example_heap).
  reflexivity.
Defined.

(** [once] on a naive datetime, at a naive scheduler. *)
Lemma once_job_shape_witness :
  ∃ job h', once (example_scheduler 0) (PyDatetime (Datetime 5 None))
                 "callback" ∅ 1%Qc example_heap = (Ok job, h')
    ∧ job ∈ set_at h' 1%positive
    ∧ job_type (job_at h' job) = CYCLIC
    ∧ timing (job_at h' job) = [PyTimedelta 0]
    ∧ start (job_at h' job) = Some (Datetime 5 None)
    ∧ max_attempts (job_at h' job) = 1.
Proof.
  assert (Hcheck : check_type TimingOnceUnion (PyDatetime (Datetime 5 None))
                   = true) by reflexivity.
  destruct (once_job_shape (example_scheduler 0) (PyDatetime (Datetime 5 None))
              "callback" ∅ 1%Qc example_heap Hcheck) as [Hreg Hfields].
  unfold registers in Hreg.
  assert (Hvalid : Job_validate CYCLIC [PyTimedelta 0]
                     (__tzinfo (example_scheduler 0))
                     (MkKwargs 1 ∅ 1%Qc false (Some (Datetime 5 None))
                               (kw_stop Job_defaults)) = None) by reflexivity.
  rewrite Hvalid in Hreg. destruct Hreg as (job & h' & Hrun & _).
  destruct (Hfields job h' Hrun) as (_ & Hin & Hmax & _ & _ & Hty & Htm & _ & Hst).
  by exists job, h'.
Defined.

(** The example jobs are naive: a scheduler in UTC refuses them, a naive
    scheduler takes them. *)
Lemma init_rejects_timezone_mismatch_witness :
  (∃ h', Scheduler_init 0 (Some 0) linear_priority_function (Some 1%positive)
                        1 example_heap
         = (Raise (SchedulerError TZ_ERROR_MSG), h'))
  ∧ (∃ self h', Scheduler_init 0 None linear_priority_function
                               (Some 1%positive) 1 example_heap
                = (Ok self, h')
       ∧ size (set_at h' (__jobs self)) = 3%nat).
Proof.
  split.
  - apply (init_rejects_timezone_mismatch 0 (Some 0) linear_priority_function
             (Some 1%positive) 1 example_heap).
    exists 1%positive. split; by vm_compute.
  - destruct (init_rejects_timezone_mismatch 0 None linear_priority_function
                (Some 1%positive) 1 example_heap) as (_ & Hok & _).
    destruct Hok as (self & h' & Hrun & _ & Hset).
    + intros job Hjob.
      assert (job ∈ [1%positive; 2%positive; 3%positive]) as Hcases.
      { revert Hjob. simpl. unfold example_heap, set_at. simpl.
        rewrite lookup_total_insert_eq. set_solver. }
      repeat (apply elem_of_cons in Hcases as [->|Hcases]; [by vm_compute|]).
      by apply not_elem_of_nil in Hcases.
    + exists self, h'. split; [exact Hrun|]. rewrite Hset. by vm_compute.
Defined.

End examples.

(** * Further properties *)

(** ** The registration methods on an accepted timing *)

Section registration_paths.
Context {JM : JobModule} {SO : PySetOrder} {CB : Callbacks}.

(** The registration method of a discipline, the alias its timing is
    checked against, and the list [__schedule] makes of a timing. *)
Definition registration (jt : JobType)
    : Scheduler → pyvalue → string → JobKwargs → M job_ref :=
  match jt with
  | CYCLIC => cyclic
  | MINUTELY => minutely
  | HOURLY => hourly
  | DAILY => daily
  | WEEKLY => weekly
  end.

Definition timing_alias (jt : JobType) : TimingAlias :=
  match jt with
  | CYCLIC => TimingCyclic
  | WEEKLY => TimingWeeklyUnion
  | MINUTELY | HOURLY | DAILY => TimingDailyUnion
  end.

Definition timing_list (v : pyvalue) : list pyvalue :=
  match v with PyList l => l | _ => [v] end.

Lemma registration_eq jt self v fn kw :
  check_type (timing_alias jt) v = true →
  registration jt self v fn kw = __schedule self jt v fn kw.
Proof.
  intros Hcheck.
  destruct jt; simpl in *;
    unfold cyclic, minutely, hourly, daily, weekly; by rewrite Hcheck.
Qed.

Lemma has_attempts_remaining_new_job jt tl fn tz kw :
  has_attempts_remaining (new_job jt tl fn tz kw)
  = bool_decide (¬ kw_max_attempts kw < 0).
Proof.
  unfold has_attempts_remaining, new_job; simpl.
  repeat case_bool_decide; simpl; try done; lia.
Qed.

(** X3.  A registration method on a timing its check accepts: when
    [Job.__init__] raises, that error is raised and the store is as
    before; otherwise a new job object is returned that has the type of
    the discipline, the timing as a list (a bare value wrapped in a
    one-element list, a list kept), the scheduler's timezone and the
    keywords of the call, with no attempts counted.  The job joins the job
    set unless it has no attempts remaining from the start (a negative
    [max_attempts]): then it is returned without being registered. *)
Theorem registration_registers (jt : JobType) (self : Scheduler) (v : pyvalue)
    (fn : string) (kw : JobKwargs) (h : heap) :
  check_type (timing_alias jt) v = true →
  match Job_validate jt (timing_list v) (__tzinfo self) kw with
  | Some msg =>
      registration jt self v fn kw h = (Raise (SchedulerError msg), h)
  | None =>
      ∃ job h', registration jt self v fn kw h = (Ok job, h')
        ∧ (job ∉ dom (jobs_mem h))
        ∧ job_type (job_at h' job) = jt
        ∧ timing (job_at h' job) = timing_list v
        ∧ job_tzinfo (job_at h' job) = __tzinfo self
        ∧ handle (job_at h' job) = fn
        ∧ max_attempts (job_at h' job) = kw_max_attempts kw
        ∧ tags (job_at h' job) = kw_tags kw
        ∧ attempts (job_at h' job) = 0%nat
        ∧ set_at h' (__jobs self) =
            if decide (kw_max_attempts kw < 0) then set_at h (__jobs self)
            else {[job]} ∪ set_at h (__jobs self)
  end.
Proof.
  intros Hcheck. rewrite (registration_eq jt self v fn kw Hcheck).
  pose proof (schedule_registers self jt v fn kw h) as Hreg.
  unfold registers in Hreg. fold (timing_list v) in Hreg.
  destruct (Job_validate jt (timing_list v) (__tzinfo self) kw); [done|].
  destruct Hreg as (job & h' & Hrun & Hnew & Hjob & _ & _ & Hset).
  exists job, h'. rewrite Hjob. split_and!; try done.
  rewrite Hset, has_attempts_remaining_new_job.
  case_bool_decide; case_decide; done || lia.
Qed.

(** What a registration leaves alone: it returns or raises; raising, it
    leaves the store as it was; returning a job, it has made one new job
    object, invoked no callback, changed no other job object and no other
    set, and added at most that job to the job set. *)
Definition atomic_registration (m : M job_ref) (self : Scheduler) (h : heap)
    : Prop :=
  (∀ h', m h ≠ (Hang, h'))
  ∧ (∀ e h', m h = (Raise e, h') → h' = h)
  ∧ ∀ job h', m h = (Ok job, h') →
      (job ∉ dom (jobs_mem h))
      ∧ (∀ r, r ≠ job → jobs_mem h' !! r = jobs_mem h !! r)
      ∧ calls h' = calls h
      ∧ (∀ l, l ≠ __jobs self → sets_mem h' !! l = sets_mem h !! l)
      ∧ set_at h (__jobs self) ⊆ set_at h' (__jobs self)
      ∧ set_at h' (__jobs self) ⊆ {[job]} ∪ set_at h (__jobs self).

Lemma atomic_raise e self h : atomic_registration (raise e) self h.
Proof. split_and!; [done|by intros ? ? [= _ <-]|by intros ? ?]. Qed.

Lemma schedule_calls self jt v fn kw h :
  calls (__schedule self jt v fn kw h).2 = calls h.
Proof.
  unfold __schedule. destruct (Job_init _ _ _ _ _); [|done..].
  unfold bind, alloc_job, get_heap, modify, ret.
  by destruct (has_attempts_remaining _).
Qed.

Lemma atomic_schedule self jt v fn kw h :
  atomic_registration (__schedule self jt v fn kw) self h.
Proof.
  pose proof (schedule_registers self jt v fn kw h) as Hreg.
  pose proof (schedule_calls self jt v fn kw h) as Hcalls.
  unfold registers in Hreg. unfold atomic_registration.
  destruct (Job_validate jt _ (__tzinfo self) kw).
  { rewrite Hreg. split_and!; [done|by intros ? ? [= _ <-]|by intros ? ?]. }
  destruct Hreg as (job & h' & Hrun & Hnew & _ & Hothers & Hsets & Hset).
  rewrite Hrun in Hcalls |- *. simpl in Hcalls.
  split_and!; [done|by intros ? ?|]. intros ? ? [= <- <-].
  split_and!; try done;
    rewrite Hset; destruct (has_attempts_remaining _); set_solver.
Qed.

Lemma atomic_discipline jt self v fn kw h :
  atomic_registration (registration jt self v fn kw) self h.
Proof.
  destruct jt; simpl;
    unfold cyclic, minutely, hourly, daily, weekly;
    destruct (check_type _ v); apply atomic_schedule || apply atomic_raise.
Qed.

Lemma atomic_once self v fn ts w h :
  atomic_registration (once self v fn ts w) self h.
Proof.
  unfold once. destruct (check_type _ v); [|apply atomic_raise].
  destruct v; simpl; apply atomic_schedule || apply atomic_raise.
Qed.

(** X4.  Every registration method, [once] included, is all or nothing:
    whatever it raises (the type error of its discipline, the error of
    [Job.__init__], the [KeyError] of [once] on a type without job type),
    the store is as it was; when it returns a job, nothing but the new job
    object and the job set has changed, and the job set by at most that
    job. *)
Theorem registration_is_atomic (jt : JobType) (self : Scheduler) (v : pyvalue)
    (fn : string) (kw : JobKwargs) (ts : gset string) (w : Qc) (h : heap) :
  atomic_registration (registration jt self v fn kw) self h
  ∧ atomic_registration (once self v fn ts w) self h.
Proof. split; [apply atomic_discipline|apply atomic_once]. Qed.

(** X5.  Registering and then deleting the returned job gives the job set
    back: after an accepted registration of a job with attempts remaining
    the job set has one member more, and [delete_job] of the returned job
    restores it.  A job returned without attempts remaining (a negative
    [max_attempts]) was never registered: [delete_job] on it raises
    [KeyError]. *)
Theorem register_then_delete_job (jt : JobType) (self : Scheduler)
    (v : pyvalue) (fn : string) (kw : JobKwargs) (h : heap) :
  check_type (timing_alias jt) v = true →
  Job_validate jt (timing_list v) (__tzinfo self) kw = None →
  set_at h (__jobs self) ⊆ dom (jobs_mem h) →
  ∃ job h1, registration jt self v fn kw h = (Ok job, h1)
    ∧ if decide (kw_max_attempts kw < 0)
      then delete_job self job h1 = (Raise (KeyError (KeyJob job)), h1)
      else job ∈ set_at h1 (__jobs self)
           ∧ size (set_at h1 (__jobs self)) = S (size (set_at h (__jobs self)))
           ∧ ∃ h2, delete_job self job h1 = (Ok (), h2)
               ∧ set_at h2 (__jobs self) = set_at h (__jobs self)
               ∧ jobs_mem h2 = jobs_mem h1.
Proof.
  intros Hcheck Hvalid Hwf.
  rewrite (registration_eq jt self v fn kw Hcheck).
  pose proof (schedule_registers self jt v fn kw h) as Hreg.
  unfold registers in Hreg. fold (timing_list v) in Hreg.
  rewrite Hvalid in Hreg.
  destruct Hreg as (job & h1 & Hrun & Hnew & _ & _ & _ & Hset).
  rewrite has_attempts_remaining_new_job in Hset.
  assert (Hfresh : job ∉ set_at h (__jobs self)) by set_solver.
  exists job, h1. split; [exact Hrun|].
  rewrite delete_job_eq, Hset.
  case_bool_decide; case_decide; try lia.
  - rewrite decide_True by set_solver.
    split_and!; [set_solver| |].
    + rewrite size_union by set_solver. by rewrite size_singleton.
    + eexists. split_and!; [done| |done].
      rewrite set_at_put_set, decide_True by done. set_solver.
  - by rewrite decide_False.
Qed.

End registration_paths.

(** ** More on the tick *)

Section tick_bounds.
Context {JM : JobModule} {SO : PySetOrder} {CB : Callbacks}.

Lemma exec_jobs_list_nil self ref_dt h :
  __exec_jobs self [] ref_dt h = (Ok 0, h).
Proof.
  unfold __exec_jobs, bind. case_decide; [done|].
  cbn [length]. by rewrite start_workers_nil.
Qed.

Lemma length_selected_le self force now h :
  (length (selected self force now h) ≤ size (set_at h (__jobs self)))%nat.
Proof.
  change (size (set_at h (__jobs self)))
    with (length (elements (set_at h (__jobs self)))).
  apply submseteq_length, NoDup_submseteq; [apply selected_NoDup|].
  intros r Hr. apply elem_of_elements. by eapply selected_registered.
Qed.

(** A tick, however it ends: the jobs whose callbacks it has invoked are
    the first jobs of the selected list, and all of them when it returns,
    which it does exactly when the callbacks of the selected jobs return;
    a tick that does not return a number leaves the job set as it is and
    has invoked a callback. *)
Lemma exec_jobs_outcome self force now h :
  let l := selected self force now h in
  ∃ res ran h', exec_jobs self force now h = (res, h')
    ∧ calls h' = calls h ++ ran
    ∧ ran `prefix_of` l
    ∧ ((∀ r, r ∈ l → returns h r) →
         res = Ok (Z.of_nat (length l)) ∧ ran = l)
    ∧ ((∃ n, res = Ok n) → ∀ r, r ∈ l → returns h r)
    ∧ ((∀ n, res ≠ Ok n) →
         ran ≠ [] ∧ set_at h' (__jobs self) = set_at h (__jobs self)).
Proof.
  intros l. destruct (first_exn h l) as [e|] eqn:Hexn.
  - destruct (exec_jobs_aborts self force now h e Hexn)
      as (h' & Hrun & [Hsets Hcalls _]).
    fold l in Hcalls.
    assert (Hnot : ¬ ∀ r, r ∈ l → returns h r).
    { intros Hret%first_exn_None. congruence. }
    eexists _, _, h'. split_and!; [exact Hrun|exact Hcalls|apply taken_prefix| | |].
    + intros Hret. by destruct Hnot.
    + intros [n Hn]. by case_decide.
    + intros _. split; [|unfold set_at; by rewrite Hsets].
      destruct (first_exn_split h l e Hexn) as (pre & r & post & Hl & Hpre & _).
      pose proof (n_workers_pos self l) as Hpos.
      destruct (n_workers self (length l)) as [|w].
      { exfalso. apply Hpos; [|done]. rewrite Hl. by destruct pre. }
      pose proof (taken_first h w pre r post Hpre) as [k Hk].
      rewrite Hl, Hk. by destruct pre.
  - pose proof (proj1 (first_exn_None _ _) Hexn) as Hret.
    destruct (exec_jobs_returns self force now h Hret) as (h' & Hrun & Hcalls & _).
    fold l in Hrun, Hcalls.
    eexists _, l, h'. split_and!; [exact Hrun|exact Hcalls|done|done|done|].
    intros Hno. by destruct (Hno (Z.of_nat (length l))).
Qed.

(** X6.  However a tick ends, it has invoked the callbacks of at most as
    many jobs as are registered; without [force_exec_all] of at most a
    positive [max_exec] jobs, and of none for a negative [max_exec]
    ([idx < max_exec] holds for no index).  The number a tick returns is
    the number of callbacks it has invoked, and it returns one whenever the
    callbacks of the registered jobs return.  A tick that invokes no
    callback returns 0 and leaves the store exactly as it was. *)
Theorem exec_jobs_count_bounds (self : Scheduler) (force : bool) (now : Z)
    (h : heap) :
  ∃ res ran h', exec_jobs self force now h = (res, h')
    ∧ calls h' = calls h ++ ran
    ∧ (length ran ≤ size (set_at h (__jobs self)))%nat
    ∧ (force = false → 0 < __max_exec self →
         Z.of_nat (length ran) ≤ __max_exec self)
    ∧ (force = false → __max_exec self < 0 → ran = [])
    ∧ (∀ n, res = Ok n → n = Z.of_nat (length ran))
    ∧ ((∀ job, job ∈ set_at h (__jobs self) →
               callback_raises (job_at h job) = None) → ∃ n, res = Ok n)
    ∧ (ran = [] → res = Ok 0 ∧ h' = h).
Proof.
  destruct (exec_jobs_outcome self force now h)
    as (res & ran & h' & Hrun & Hcalls & Hpre & Hret & Hok & Habort).
  pose proof (length_selected_le self force now h) as Hle.
  pose proof (prefix_length _ _ Hpre) as Hlen.
  assert (Hcap : force = false →
    selected self force now h
    = capped (__max_exec self)
        (due_jobs (job_priority self h (Datetime now (__tzinfo self)))
           (sorted_reverse (job_priority self h (Datetime now (__tzinfo self)))
              (set_iter (set_at h (__jobs self)))))).
  { intros ->. apply selected_due. }
  exists res, ran, h'. split_and!; [exact Hrun|exact Hcalls|lia| | | | |].
  - intros Hf Hpos. rewrite (Hcap Hf) in Hlen. unfold capped in Hlen.
    rewrite decide_False in Hlen by lia. rewrite length_take in Hlen. lia.
  - intros Hf Hneg. rewrite (Hcap Hf) in Hlen. unfold capped in Hlen.
    rewrite decide_False in Hlen by lia. rewrite length_take in Hlen.
    apply nil_length_inv. lia.
  - intros n Hn. destruct Hret as [Hres ->]; [apply Hok; by exists n|].
    congruence.
  - intros Hall. destruct Hret as [-> _]; [|by eexists].
    intros r Hr. apply Hall. by eapply selected_registered.
  - intros Hnil.
    assert (Hres : ∃ n, res = Ok n).
    { destruct res as [n| |]; [by exists n|..];
        by destruct Habort as [Hne _]. }
    destruct Hret as [Hres' Hran]; [by apply Hok|].
    rewrite <- Hran, Hnil in Hres'. split; [exact Hres'|].
    rewrite exec_jobs_selected, <- Hran, Hnil, exec_jobs_list_nil in Hrun.
    by injection Hrun as _ <-.
Qed.

Lemma descending_filter {A} (key : A → Qc) (P : A → Prop)
    `{∀ x, Decision (P x)} (l : list A) :
  descending key l → descending key (filter P l).
Proof.
  unfold descending. induction 1 as [|x l Hl IH Hx]; [constructor|].
  rewrite filter_cons. case_decide; [|done].
  constructor; [done|].
  apply Forall_forall. intros y [_ Hy]%list_elem_of_filter.
  by eapply Forall_forall in Hx.
Qed.

(** X7.  Without [force_exec_all] the cap never prefers a job of lower
    priority: the jobs to dispatch come in descending order of priority,
    every registered job left out has a priority not above that of any of
    them, and a job of positive priority is left out only when the cap is
    full ([max_exec] jobs are to be dispatched; none for a negative
    [max_exec]).  The callbacks a tick invokes are those of the first jobs
    of this list, each once; when the callbacks of the list return, they
    are those of the whole list, and the tick returns its length. *)
Theorem exec_jobs_prefers_higher_priority (self : Scheduler) (now : Z)
    (h : heap) :
  let priority := job_priority self h (Datetime now (__tzinfo self)) in
  ∃ dispatched res ran h',
    exec_jobs self false now h = (res, h')
    ∧ calls h' ≡ₚ calls h ++ ran
    ∧ ran `prefix_of` dispatched
    ∧ ((∀ job, job ∈ dispatched → callback_raises (job_at h job) = None) →
         res = Ok (Z.of_nat (length dispatched)) ∧ ran = dispatched)
    ∧ descending priority dispatched
    ∧ (∀ a b, a ∈ dispatched → b ∈ set_at h (__jobs self) →
              b ∉ dispatched → (priority b ≤ priority a)%Qc)
    ∧ ∀ b, b ∈ set_at h (__jobs self) → b ∉ dispatched →
           (0 < priority b)%Qc →
           __max_exec self ≠ 0
           ∧ Z.of_nat (length dispatched) = Z.max 0 (__max_exec self).
Proof.
  intros priority.
  destruct (exec_jobs_outcome self false now h)
    as (res & ran & h' & Hrun & Hcalls & Hpre & Hret & _).
  rewrite selected_due in Hpre, Hret. fold priority in Hpre, Hret.
  set (sorted_jobs := sorted_reverse priority (set_iter (set_at h (__jobs self))))
    in *.
  set (due := due_jobs priority sorted_jobs) in *.
  assert (Hdue : descending priority due).
  { apply descending_filter, sorted_reverse_descending. }
  assert (Hmem : ∀ b, b ∈ set_at h (__jobs self) → (0 < priority b)%Qc →
                      b ∈ due).
  { intros b Hb Hpos. apply list_elem_of_filter. split; [done|].
    unfold sorted_jobs. rewrite sorted_reverse_perm. by apply elem_of_set_iter. }
  assert (Hpos : ∀ a, a ∈ due → (0 < priority a)%Qc).
  { by intros a [? _]%list_elem_of_filter. }
  exists (capped (__max_exec self) due), res, ran, h'.
  split_and!; [exact Hrun|by rewrite Hcalls|exact Hpre|exact Hret| | |];
    unfold capped in *.
  - case_decide; [done|].
    rewrite <- (take_drop (Z.to_nat (__max_exec self)) due) in Hdue.
    by apply StronglySorted_app_1_l in Hdue.
  - intros a b Ha Hb Hout.
    assert (a ∈ due) as Ha'.
    { case_decide; [done|]. eapply elem_of_sublist; [exact Ha|apply sublist_take]. }
    destruct (decide (0 < priority b)%Qc) as [Hb'|Hb'].
    + case_decide; [by specialize (Hmem b Hb Hb')|].
      pose proof (Hmem b Hb Hb') as Hbdue.
      rewrite <- (take_drop (Z.to_nat (__max_exec self)) due) in Hbdue, Hdue.
      apply elem_of_app in Hbdue as [?|Hbdrop]; [done|].
      by apply (StronglySorted_app_1_elem_of _ _ _ a b) in Hdue.
    + apply Qcnot_lt_le in Hb'. specialize (Hpos a Ha').
      apply Qclt_le_weak. by eapply Qcle_lt_trans.
  - intros b Hb Hout Hb'. pose proof (Hmem b Hb Hb') as Hbdue.
    case_decide; [done|]. split; [done|].
    rewrite length_take.
    destruct (decide (length due ≤ Z.to_nat (__max_exec self))%nat) as [Hshort|?];
      [|lia].
    rewrite take_ge in Hout by done. done.
Qed.

(** X8.  A run of ticks never registers a job, and it never evicts a job
    without a limit of attempts, however its ticks end: a registered job
    with [max_attempts = 0] is registered after any run of ticks.  When
    the ticks of the run return, its attempts have grown by the number of
    ticks that dispatched it. *)
Theorem unlimited_job_is_never_evicted (self : Scheduler) (job : positive)
    (ticks : list (bool * Z)) (h : heap) :
  job ∈ set_at h (__jobs self) →
  max_attempts (job_at h job) = 0 →
  let h' := run_ticks self ticks h in
  job ∈ set_at h' (__jobs self)
  ∧ max_attempts (job_at h' job) = 0
  ∧ set_at h' (__jobs self) ⊆ set_at h (__jobs self)
  ∧ (ticks_return self ticks h →
     attempts (job_at h' job)
     = (attempts (job_at h job) + dispatch_count self job ticks h)%nat).
Proof.
  revert h. induction ticks as [|[force now] rest IH]; intros h Hreg Hmax h'.
  { subst h'. simpl. split_and!; [done|done|done|lia]. }
  subst h'. simpl.
  set (h1 := (exec_jobs self force now h).2).
  pose proof (exec_jobs_frame self force now h) as [_ Hsub _ Hout Hjob].
  fold h1 in Hsub, Hout, Hjob.
  destruct (tick_job self force now h job) as [_ Hin]. fold h1 in Hin.
  assert (Hmax1 : max_attempts (job_at h1 job) = 0).
  { by destruct (Hjob job) as (n & d & ->). }
  assert (Hreg1 : job ∈ set_at h1 (__jobs self)).
  { destruct (decide (job ∈ selected self force now h)) as [Hsel|Hsel];
      [|by apply (Hout job Hsel)].
    destruct (exec_jobs_outcome self force now h)
      as (res & ran & h2 & Hrun & _ & _ & _ & Hok & Habort).
    assert (h1 = h2) as <- by (unfold h1; by rewrite Hrun).
    destruct res as [n| |].
    - apply Hin; [apply Hok; by exists n|done|].
      unfold has_attempts_remaining, after_tick; simpl. by rewrite Hmax.
    - destruct Habort as [_ ->]; done.
    - destruct Habort as [_ ->]; done. }
  destruct (IH h1 Hreg1 Hmax1) as (? & ? & Hsub' & Hatt).
  split_and!; [done|done|set_solver|].
  intros [Hret Hticks]. rewrite (Hatt Hticks).
  case_decide as Hsel.
  - destruct (Hin Hret Hsel) as [-> _]. simpl. lia.
  - destruct (Hout job Hsel) as [Hsame _].
    rewrite (job_at_lookup h h1 job Hsame). lia.
Qed.

End tick_bounds.

(** ** Sets shared and sets handed out *)

Section sharing.
Context {JM : JobModule} {SO : PySetOrder} {CB : Callbacks}.

Lemma set_at_nonempty_dom h l : set_at h l ≠ ∅ → l ∈ dom (sets_mem h).
Proof.
  intros Hne. apply elem_of_dom. unfold set_at in Hne.
  rewrite lookup_total_alt in Hne.
  destruct (sets_mem h !! l); [done|]. by destruct Hne.
Qed.

Lemma registration_ok_set jt self v fn kw h job h' :
  registration jt self v fn kw h = (Ok job, h') →
  set_at h' (__jobs self) =
    if decide (kw_max_attempts kw < 0) then set_at h (__jobs self)
    else {[job]} ∪ set_at h (__jobs self).
Proof.
  intros Hrun.
  assert (check_type (timing_alias jt) v = true) as Hcheck.
  { destruct (check_type (timing_alias jt) v) eqn:Hc; [done|].
    destruct jt; simpl in *;
      unfold cyclic, minutely, hourly, daily, weekly in Hrun;
      rewrite Hc in Hrun; discriminate. }
  rewrite (registration_eq jt self v fn kw Hcheck) in Hrun.
  pose proof (schedule_registers self jt v fn kw h) as Hreg.
  unfold registers in Hreg.
  destruct (Job_validate jt _ (__tzinfo self) kw); [congruence|].
  destruct Hreg as (job' & h'' & Hrun' & _ & _ & _ & _ & Hset).
  rewrite Hrun in Hrun'. injection Hrun' as <- <-.
  rewrite Hset, has_attempts_remaining_new_job.
  case_bool_decide; case_decide; done || lia.
Qed.

(** X9.  [Scheduler(jobs=s)] keeps the caller's set object when it is not
    empty: nothing is copied, a job registered later is added to the
    caller's set and [delete_job] removes from it, until [delete_jobs]
    gives the scheduler a set of its own and leaves the caller's set with
    all its jobs.  Given an empty set, the scheduler starts on a new set
    object. *)
Theorem init_keeps_the_callers_set (max_exec : Z) (tz : tzinfo)
    (priority_function : Qc → Job → Z → Z → Qc) (s : set_ref)
    (n_threads : nat) (h : heap) (self : Scheduler) (h1 : heap) :
  Scheduler_init max_exec tz priority_function (Some s) n_threads h
  = (Ok self, h1) →
  if decide (set_at h s = ∅)
  then (__jobs self ∉ dom (sets_mem h))
       ∧ set_at h1 (__jobs self) = ∅
       ∧ ∀ l, l ∈ dom (sets_mem h) → sets_mem h1 !! l = sets_mem h !! l
  else __jobs self = s ∧ h1 = h
       ∧ (∀ jt v fn kw job h2,
            registration jt self v fn kw h1 = (Ok job, h2) →
            0 ≤ kw_max_attempts kw → job ∈ set_at h2 s)
       ∧ (∀ job h2, delete_job self job h1 = (Ok (), h2) →
                    set_at h2 s = set_at h s ∖ {[job]})
       ∧ (∀ tags any_tag n self' h2,
            delete_jobs self tags any_tag h1 = (Ok (n, self'), h2) →
            __jobs self' ≠ s ∧ set_at h2 s = set_at h s).
Proof.
  unfold Scheduler_init, bind at 1, get_heap at 1.
  case_decide as Hemp.
  - unfold bind, alloc_set, get_heap, ret, raise.
    destruct (forallb _ _); intros [= <- <-]. simpl.
    pose proof (is_fresh (dom (sets_mem h))) as Hfresh.
    split_and!; [done| |].
    + rewrite set_at_put_set. by rewrite decide_True.
    + intros l Hl. rewrite lookup_insert_ne; [done|]. intros Heq. by subst l.
  - unfold bind, ret, get_heap, raise.
    destruct (forallb _ _); intros [= <- <-]. simpl.
    split_and!; [done|done| | |].
    + intros jt v fn kw job h2 Hrun Hpos.
      apply registration_ok_set in Hrun. simpl in Hrun.
      rewrite Hrun. rewrite decide_False by lia. set_solver.
    + intros job h2. rewrite delete_job_eq. simpl.
      case_decide; intros [= <-]. rewrite set_at_put_set.
      by rewrite decide_True.
    + intros tags any_tag n self' h2.
      pose proof (delete_jobs_eq
        (MkScheduler max_exec tz priority_function s n_threads) tags any_tag h)
        as Hrun. simpl in Hrun. rewrite Hrun. intros [= _ <- <-]. simpl.
      pose proof (is_fresh (dom (sets_mem h))) as Hfresh.
      pose proof (set_at_nonempty_dom h s Hemp) as Hdom.
      assert (fresh (dom (sets_mem h)) ≠ s) as Hne by (intros Heq; congruence).
      split; [done|]. rewrite set_at_put_set. by rewrite decide_False.
Qed.

(** X10.  [delete_jobs] and [get_jobs] agree on every input, the empty set
    of tags included: [delete_jobs(tags, any_tag)] returns the size of the
    set [get_jobs(tags, any_tag)] returns and leaves registered the jobs
    that are not in it; it changes no job object and invokes no
    callback. *)
Theorem delete_jobs_agrees_with_get_jobs (self : Scheduler)
    (tags : option (gset string)) (any_tag : bool) (h : heap) :
  ∃ l hg n self' hd,
    get_jobs self tags any_tag h = (Ok l, hg)
    ∧ delete_jobs self tags any_tag h = (Ok (n, self'), hd)
    ∧ n = Z.of_nat (size (set_at hg l))
    ∧ set_at hg l ⊆ set_at h (__jobs self)
    ∧ set_at hd (__jobs self') = set_at h (__jobs self) ∖ set_at hg l
    ∧ jobs_mem hd = jobs_mem h
    ∧ calls hd = calls h.
Proof.
  pose proof (delete_jobs_eq self tags any_tag h) as Hdel. simpl in Hdel.
  destruct (set_at_alloc h (tag_filter h (set_at h (__jobs self)) tags any_tag))
    as (Hget & _ & Hl & _).
  rewrite <- get_jobs_eq in Hget.
  eexists _, _, _, _, _. split; [exact Hget|]. split; [exact Hdel|].
  rewrite Hl. split_and!; try done.
  - apply tag_filter_subseteq.
  - simpl. rewrite set_at_put_set. by rewrite decide_True.
Qed.

Lemma inter_nonempty_iff (ts X : gset string) :
  ts ∩ X ≠ ∅ ↔ ∃ x, x ∈ ts ∧ x ∈ X.
Proof.
  split.
  - intros [x Hx]%set_choose_L. exists x. set_solver.
  - intros (x & ? & ?) Heq. assert (x ∈ ts ∩ X) as Hx by set_solver.
    rewrite Heq in Hx. set_solver.
Qed.

(** X11.  The two modes of [select_jobs_by_tag]: both select among the
    given jobs; for one tag they agree; for tags that are not empty a job
    selected in the mode "all" is selected in the mode "any"; more tags
    select more jobs in the mode "any" and fewer in the mode "all"; the
    empty set of tags selects nothing in the mode "any" and every job in
    the mode "all". *)
Theorem select_jobs_by_tag_modes (h : heap) (js : gset positive)
    (ts ts' : gset string) (t : string) :
  (∀ any_tag, select_jobs_by_tag h js ts any_tag ⊆ js)
  ∧ select_jobs_by_tag h js {[t]} true = select_jobs_by_tag h js {[t]} false
  ∧ (ts ≠ ∅ → select_jobs_by_tag h js ts false ⊆ select_jobs_by_tag h js ts true)
  ∧ (ts ⊆ ts' →
     select_jobs_by_tag h js ts true ⊆ select_jobs_by_tag h js ts' true
     ∧ select_jobs_by_tag h js ts' false ⊆ select_jobs_by_tag h js ts false)
  ∧ select_jobs_by_tag h js ∅ true = ∅
  ∧ select_jobs_by_tag h js ∅ false = js.
Proof.
  split_and!.
  - intros any_tag. apply select_jobs_by_tag_subseteq.
  - apply set_eq. intros r.
    rewrite !elem_of_select_jobs_by_tag, inter_nonempty_iff. set_solver.
  - intros [x Hx]%set_choose_L r.
    rewrite !elem_of_select_jobs_by_tag, inter_nonempty_iff. set_solver.
  - intros Hsub. split; intros r;
      rewrite !elem_of_select_jobs_by_tag, ?inter_nonempty_iff; set_solver.
  - apply set_eq. intros r.
    rewrite elem_of_select_jobs_by_tag, inter_nonempty_iff. set_solver.
  - apply set_eq. intros r. rewrite elem_of_select_jobs_by_tag. set_solver.
Qed.

End sharing.

(** ** What the calls leave alone *)

Section frames.
Context {JM : JobModule} {SO : PySetOrder} {CB : Callbacks}.

Lemma atomic_sets_frame (m : M job_ref) self h l :
  atomic_registration m self h → l ≠ __jobs self →
  sets_mem (m h).2 !! l = sets_mem h !! l.
Proof.
  intros (Hhang & Hraise & Hok) Hl.
  destruct (m h) as [[job|e|] h'] eqn:Hrun; simpl.
  - by apply (Hok job h' eq_refl).
  - by rewrite (Hraise e h' eq_refl).
  - by destruct (Hhang h').
Qed.

Lemma atomic_jobs_frame (m : M job_ref) self h :
  atomic_registration m self h →
  calls (m h).2 = calls h
  ∧ ∀ r, r ∈ dom (jobs_mem h) → jobs_mem (m h).2 !! r = jobs_mem h !! r.
Proof.
  intros (Hhang & Hraise & Hok).
  destruct (m h) as [[job|e|] h'] eqn:Hrun; simpl.
  - destruct (Hok job h' eq_refl) as (Hnew & Hothers & Hcalls & _).
    split; [done|]. intros r Hr. apply Hothers. by intros ->.
  - by rewrite (Hraise e h' eq_refl).
  - by destruct (Hhang h').
Qed.

(** A call changes no set object but the scheduler's own, which stays
    another object than any set that exists already. *)
Lemma run_call_sets_frame c self h l :
  l ∈ dom (sets_mem h) → l ≠ __jobs self →
  sets_mem (run_call c self h).2 !! l = sets_mem h !! l
  ∧ l ≠ __jobs (run_call c self h).1.
Proof.
  intros Hdom Hl.
  assert (Hfresh : fresh (dom (sets_mem h)) ≠ l).
  { intros Heq. apply (is_fresh (dom (sets_mem h))). by rewrite Heq. }
  destruct c as [job|tags any_tag|force now|tags any_tag| |v fn kw|v fn kw
                 |v fn kw|v fn kw|v fn kw|v fn ts w]; cbn [run_call fst snd].
  - split; [|done]. rewrite delete_job_eq. case_decide; [|done].
    simpl. by rewrite lookup_insert_ne.
  - pose proof (delete_jobs_eq self tags any_tag h) as Hrun. simpl in Hrun.
    rewrite Hrun. simpl. split; [|done]. by rewrite lookup_insert_ne.
  - split; [|done].
    by apply (tf_other_sets _ _ _ _ (exec_jobs_frame self force now h)).
  - split; [|done]. rewrite get_jobs_eq. simpl. by rewrite lookup_insert_ne.
  - split; [|done]. unfold jobs, bind, get_heap. simpl.
    by rewrite lookup_insert_ne.
  - split; [|done].
    exact (atomic_sets_frame _ self h l (atomic_discipline CYCLIC self v fn kw h) Hl).
  - split; [|done].
    exact (atomic_sets_frame _ self h l (atomic_discipline MINUTELY self v fn kw h) Hl).
  - split; [|done].
    exact (atomic_sets_frame _ self h l (atomic_discipline HOURLY self v fn kw h) Hl).
  - split; [|done].
    exact (atomic_sets_frame _ self h l (atomic_discipline DAILY self v fn kw h) Hl).
  - split; [|done].
    exact (atomic_sets_frame _ self h l (atomic_discipline WEEKLY self v fn kw h) Hl).
  - split; [|done].
    exact (atomic_sets_frame _ self h l (atomic_once self v fn ts w h) Hl).
Qed.

Lemma run_calls_sets_frame cs :
  ∀ self h l, l ∈ dom (sets_mem h) → l ≠ __jobs self →
  sets_mem (run_calls cs self h).2 !! l = sets_mem h !! l.
Proof.
  induction cs as [|c cs IH]; intros self h l Hdom Hl; [done|].
  simpl. destruct (run_call_sets_frame c self h l Hdom Hl) as [Hsame Hne].
  destruct (run_call c self h) as [self' h']. simpl in *.
  rewrite IH; [done| |done].
  apply elem_of_dom. rewrite Hsame. by apply elem_of_dom.
Qed.

(** X12.  A set handed out by [get_jobs] or [jobs] is a snapshot: no later
    call of any method of the scheduler (registering, deleting, ticking,
    querying) changes what it holds. *)
Theorem handed_out_set_is_a_snapshot (self : Scheduler) (h : heap) :
  __jobs self ∈ dom (sets_mem h) →
  (∀ tags any_tag l h1 cs,
     get_jobs self tags any_tag h = (Ok l, h1) →
     set_at (run_calls cs self h1).2 l = set_at h1 l)
  ∧ (∀ l h1 cs,
       jobs self h = (Ok l, h1) →
       set_at (run_calls cs self h1).2 l = set_at h1 l).
Proof.
  intros Hwf.
  assert (Halloc : ∀ s l h1 cs, alloc_set s h = (Ok l, h1) →
            set_at (run_calls cs self h1).2 l = set_at h1 l).
  { intros s l h1 cs [= <- <-]. unfold set_at.
    rewrite !lookup_total_alt. rewrite run_calls_sets_frame; [done| |].
    - simpl. rewrite dom_insert_L. set_solver.
    - intros Heq. apply (is_fresh (dom (sets_mem h))). by rewrite Heq. }
  split.
  - intros tags any_tag l h1 cs. rewrite get_jobs_eq. apply Halloc.
  - intros l h1 cs. unfold jobs, bind, get_heap. apply Halloc.
Qed.

Lemma run_call_jobs_frame c self h :
  (∀ force now, c ≠ call_exec_jobs force now) →
  calls (run_call c self h).2 = calls h
  ∧ ∀ r, r ∈ dom (jobs_mem h) →
         jobs_mem (run_call c self h).2 !! r = jobs_mem h !! r.
Proof.
  intros Hc.
  destruct c as [job|tags any_tag|force now|tags any_tag| |v fn kw|v fn kw
                 |v fn kw|v fn kw|v fn kw|v fn ts w]; cbn [run_call fst snd].
  - rewrite delete_job_eq. by case_decide.
  - pose proof (delete_jobs_eq self tags any_tag h) as Hrun. simpl in Hrun.
    by rewrite Hrun.
  - by destruct (Hc force now).
  - by rewrite get_jobs_eq.
  - done.
  - exact (atomic_jobs_frame _ self h (atomic_discipline CYCLIC self v fn kw h)).
  - exact (atomic_jobs_frame _ self h (atomic_discipline MINUTELY self v fn kw h)).
  - exact (atomic_jobs_frame _ self h (atomic_discipline HOURLY self v fn kw h)).
  - exact (atomic_jobs_frame _ self h (atomic_discipline DAILY self v fn kw h)).
  - exact (atomic_jobs_frame _ self h (atomic_discipline WEEKLY self v fn kw h)).
  - exact (atomic_jobs_frame _ self h (atomic_once self v fn ts w h)).
Qed.

(** X13.  Only [exec_jobs] runs jobs: over any sequence of calls of the
    other methods (registration, [once], [delete_job], [delete_jobs],
    [get_jobs], [jobs]) no callback is invoked and no job object that
    existed before is changed. *)
Theorem only_exec_jobs_runs_jobs (cs : list call) (self : Scheduler)
    (h : heap) :
  Forall (λ c, ∀ force now, c ≠ call_exec_jobs force now) cs →
  calls (run_calls cs self h).2 = calls h
  ∧ ∀ r, r ∈ dom (jobs_mem h) →
         jobs_mem (run_calls cs self h).2 !! r = jobs_mem h !! r.
Proof.
  revert self h. induction cs as [|c cs IH]; intros self h Hcs; [done|].
  apply Forall_cons in Hcs as [Hc Hcs]. simpl.
  destruct (run_call_jobs_frame c self h Hc) as [Hcalls Hjobs].
  destruct (run_call c self h) as [self' h']. simpl in *.
  destruct (IH self' h' Hcs) as [Hcalls' Hjobs'].
  split; [congruence|]. intros r Hr.
  rewrite Hjobs', Hjobs; [done|done|].
  apply elem_of_dom. rewrite Hjobs by done. by apply elem_of_dom.
Qed.

End frames.

(** ** [once] and the disciplines; schedulers without jobs; deleted jobs *)

Section once_and_edges.
Context {JM : JobModule} {SO : PySetOrder} {CB : Callbacks}.

(** X14.  [once] is the registration method of the discipline
    [JOB_TYPE_MAPPING] gives for the type of its timing, called with
    [max_attempts=1]: [cyclic] for a duration, [daily] for a time of day,
    [weekly] for a weekday, and [cyclic] on a zero duration with
    [delay=False] and [start] the timing for a datetime (which is looked
    at first and never looked up in the mapping).  A timing of any other
    type that passes the check of [once] has no entry in the mapping: the
    call raises [KeyError] and the store is as before. *)
Theorem once_is_the_discipline_method (self : Scheduler) (v : pyvalue)
    (fn : string) (ts : gset string) (w : Qc) (h : heap) :
  check_type TimingOnceUnion v = true →
  let rest := MkKwargs 1 ts w (kw_delay Job_defaults) (kw_start Job_defaults)
                       (kw_stop Job_defaults) in
  match v with
  | PyDatetime d =>
      check_type TimingCyclic (PyTimedelta 0) = true →
      once self v fn ts w h
      = cyclic self (PyTimedelta 0) fn
          (MkKwargs 1 ts w false (Some d) (kw_stop Job_defaults)) h
  | PyTimedelta _ =>
      check_type TimingCyclic v = true →
      once self v fn ts w h = cyclic self v fn rest h
  | PyTime _ =>
      check_type TimingDailyUnion v = true →
      once self v fn ts w h = daily self v fn rest h
  | PyWeekday _ =>
      check_type TimingWeeklyUnion v = true →
      once self v fn ts w h = weekly self v fn rest h
  | PyList _ | PyTuple _ | PyOther _ =>
      once self v fn ts w h = (Raise (KeyError (KeyType (type_of v))), h)
  end.
Proof.
  intros Hcheck rest. unfold once. rewrite Hcheck.
  destruct v; simpl; try done;
    unfold cyclic, daily, weekly; by intros ->.
Qed.

(** X15.  A scheduler constructed without jobs ([jobs=None]) is always
    constructed, whatever its timezone; it starts on a new, empty set and
    changes no job object.  On it [exec_jobs] returns 0 and leaves the
    store as it is, forced or not, and [delete_jobs] returns 0. *)
Theorem scheduler_without_jobs (max_exec : Z) (tz : tzinfo)
    (priority_function : Qc → Job → Z → Z → Qc) (n_threads : nat) (h : heap) :
  ∃ self h1,
    Scheduler_init max_exec tz priority_function None n_threads h
    = (Ok self, h1)
    ∧ (__jobs self ∉ dom (sets_mem h))
    ∧ set_at h1 (__jobs self) = ∅
    ∧ jobs_mem h1 = jobs_mem h
    ∧ (∀ force now, exec_jobs self force now h1 = (Ok 0, h1))
    ∧ ∀ tags any_tag, ∃ self' h2,
        delete_jobs self tags any_tag h1 = (Ok (0, self'), h2).
Proof.
  set (l := fresh (dom (sets_mem h))).
  set (self := MkScheduler max_exec tz priority_function l n_threads).
  assert (Hset : set_at (put_set l ∅ h) l = ∅).
  { rewrite set_at_put_set. by rewrite decide_True. }
  exists self, (put_set l ∅ h). split_and!; try done.
  - unfold Scheduler_init, bind, get_heap, alloc_set. fold l.
    rewrite Hset. assert (set_iter (∅ : gset positive) = []) as ->; [|done].
    apply Permutation_nil_r. by rewrite set_iter_perm, elements_empty.
  - apply is_fresh.
  - intros force now. rewrite exec_jobs_selected.
    assert (selected self force now (put_set l ∅ h) = []) as ->.
    { pose proof (selected_registered self force now (put_set l ∅ h)) as Hsub.
      simpl in Hsub. rewrite Hset in Hsub.
      destruct (selected self force now (put_set l ∅ h)) as [|r ?]; [done|].
      specialize (Hsub r (list_elem_of_here _ _)). set_solver. }
    apply exec_jobs_list_nil.
  - intros tags any_tag.
    pose proof (delete_jobs_eq self tags any_tag (put_set l ∅ h)) as Hrun.
    simpl in Hrun. rewrite Hset in Hrun. eexists _, _. rewrite Hrun.
    do 3 f_equal.
    assert (tag_filter (put_set l ∅ h) ∅ tags any_tag = ∅) as ->; [|done].
    pose proof (tag_filter_subseteq (put_set l ∅ h) ∅ tags any_tag).
    set_solver.
Qed.

(** X16.  A deleted job is out of the schedule: after [delete_job(job)] no
    tick dispatches the job, however many follow and forced or not, the
    job object stays as it is, and deleting it once more raises
    [KeyError]. *)
Theorem deleted_job_is_never_run (self : Scheduler) (job : positive)
    (h h1 : heap) (ticks : list (bool * Z)) :
  delete_job self job h = (Ok (), h1) →
  dispatch_count self job ticks h1 = 0%nat
  ∧ (job ∉ set_at (run_ticks self ticks h1) (__jobs self))
  ∧ job_at (run_ticks self ticks h1) job = job_at h job
  ∧ delete_job self job h1 = (Raise (KeyError (KeyJob job)), h1).
Proof.
  rewrite delete_job_eq. case_decide as Hreg; intros [= <-].
  set (h1 := put_set (__jobs self) (set_at h (__jobs self) ∖ {[job]}) h).
  assert (Hgone : job ∉ set_at h1 (__jobs self)).
  { unfold h1. rewrite set_at_put_set, decide_True by done. set_solver. }
  destruct (run_ticks_absent self job ticks h1 Hgone) as (Hcount & Hset & Hjob).
  split_and!; [done|done|by rewrite Hjob|].
  rewrite delete_job_eq. by rewrite decide_False.
Qed.

End once_and_edges.

(** ** The further properties at the example scheduler *)

(** The example store with job 1 allowed any number of attempts. *)
Definition example_heap_unlimited : heap :=
  put_job 1%positive
    (MkJob CYCLIC [PyTimedelta 1000000] "callback" None 0 {["a"]} 1%Qc true
           None None 0%nat 0)
    example_heap.

Section more_examples.
#[local] Existing Instance spec_job_module.
#[local] Existing Instance elements_order.
#[local] Existing Instance example_callbacks.

Lemma example_heap_wf :
  set_at example_heap 1%positive ⊆ dom (jobs_mem example_heap).
Proof. apply (bool_decide_unpack _). by vm_compute. Qed.

(** [cyclic] on a bare duration. *)
Lemma registration_registers_witness :
  ∃ job h', cyclic (example_scheduler 0) (PyTimedelta 5) "callback"
                   Job_defaults example_heap = (Ok job, h')
    ∧ job_type (job_at h' job) = CYCLIC
    ∧ timing (job_at h' job) = [PyTimedelta 5]
    ∧ job ∈ set_at h' 1%positive.
Proof.
  assert (Hcheck : check_type (timing_alias CYCLIC) (PyTimedelta 5) = true)
    by reflexivity.
  pose proof (registration_registers CYCLIC (example_scheduler 0)
                (PyTimedelta 5) "callback" Job_defaults example_heap Hcheck)
    as Hreg.
  assert (Hvalid : Job_validate CYCLIC (timing_list (PyTimedelta 5))
                     (__tzinfo (example_scheduler 0)) Job_defaults = None)
    by reflexivity.
  rewrite Hvalid in Hreg.
  destruct Hreg as (job & h' & Hrun & _ & Hty & Htm & _ & _ & _ & _ & _ & Hset).
  exists job, h'. split_and!; [exact Hrun|exact Hty|exact Htm|].
  simpl in Hset. rewrite Hset. set_solver.
Defined.

(** [once] on an object of no timing type raises and changes nothing. *)
Lemma registration_is_atomic_witness :
  ∃ e, once (example_scheduler 0) (PyOther "soon") "callback" ∅ 1%Qc
            example_heap = (Raise e, example_heap).
Proof.
  destruct (registration_is_atomic CYCLIC (example_scheduler 0)
              (PyOther "soon") "callback" Job_defaults ∅ 1%Qc example_heap)
    as [_ (Hhang & Hraise & _)].
  destruct (once (example_scheduler 0) (PyOther "soon") "callback" ∅ 1%Qc
                 example_heap) as [[job|e|] h'] eqn:Hrun.
  - exfalso. revert Hrun. vm_compute. discriminate.
  - exists e. by rewrite (Hraise e h' eq_refl).
  - by destruct (Hhang h').
Defined.

(** Registering a daily job and deleting it again. *)
Lemma register_then_delete_job_witness :
  ∃ job h1 h2,
    daily (example_scheduler 0) (PyTime (Time 0 None)) "callback" Job_defaults
          example_heap = (Ok job, h1)
    ∧ delete_job (example_scheduler 0) job h1 = (Ok (), h2)
    ∧ set_at h2 1%positive = set_at example_heap 1%positive.
Proof.
  destruct (register_then_delete_job DAILY (example_scheduler 0)
              (PyTime (Time 0 None)) "callback" Job_defaults example_heap)
    as (job & h1 & Hrun & Hrest);
    [reflexivity|reflexivity|exact example_heap_wf|].
  simpl in Hrest. destruct Hrest as (_ & _ & h2 & Hdel & Hset & _).
  by exists job, h1, h2.
Defined.

(** A negative [max_exec] dispatches nothing and changes nothing. *)
Lemma exec_jobs_count_bounds_witness :
  exec_jobs (example_scheduler (-1)) false 3000000 example_heap
  = (Ok 0, example_heap).
Proof.
  destruct (exec_jobs_count_bounds (example_scheduler (-1)) false 3000000
              example_heap)
    as (res & ran & h' & Hrun & _ & _ & _ & Hneg & _ & _ & Hzero).
  assert (ran = []) as Hnil by (apply Hneg; by vm_compute).
  destruct (Hzero Hnil) as [-> ->]. exact Hrun.
Defined.

(** Job 1 is due and left out: the cap of two is full. *)
Lemma exec_jobs_prefers_higher_priority_witness :
  ∃ dispatched h',
    exec_jobs (example_scheduler 2) false 3000000 example_heap
    = (Ok (Z.of_nat (length dispatched)), h')
    ∧ (1%positive ∉ dispatched)
    ∧ Z.of_nat (length dispatched) = 2.
Proof.
  destruct (exec_jobs_prefers_higher_priority (example_scheduler 2) 3000000
              example_heap)
    as (d & res & ran & h' & Hrun & Hcalls & _ & Hret & _ & _ & Hfull).
  destruct Hret as [-> ->]; [intros job _; apply example_heap_returns|].
  assert (Hd : d ≡ₚ [3%positive; 2%positive]).
  { assert (calls (exec_jobs (example_scheduler 2) false 3000000
                             example_heap).2 ≡ₚ d) as <-
      by (rewrite Hrun; exact Hcalls).
    by vm_compute. }
  assert (Hout : 1%positive ∉ d) by (rewrite Hd; set_solver).
  exists d, h'. split_and!; [exact Hrun|exact Hout|].
  apply (Hfull 1%positive); [by vm_compute|exact Hout|by vm_compute].
Defined.

(** Job 1 without a limit survives three forced ticks. *)
Lemma unlimited_job_is_never_evicted_witness :
  1%positive ∈ set_at (run_ticks (example_scheduler 0)
                         [(true, 0); (true, 1); (true, 2)]
                         example_heap_unlimited) 1%positive.
Proof.
  apply (unlimited_job_is_never_evicted (example_scheduler 0) 1%positive
           [(true, 0); (true, 1); (true, 2)] example_heap_unlimited);
    by vm_compute.
Defined.

(** A scheduler constructed on the set of the example store uses that set
    object. *)
Lemma init_keeps_the_callers_set_witness :
  ∃ self, Scheduler_init 0 None linear_priority_function (Some 1%positive) 1
                         example_heap = (Ok self, example_heap)
    ∧ __jobs self = 1%positive.
Proof.
  set (self := MkScheduler 0 None linear_priority_function 1%positive 1).
  assert (Hrun : Scheduler_init 0 None linear_priority_function
                   (Some 1%positive) 1 example_heap = (Ok self, example_heap))
    by (vm_compute; reflexivity).
  pose proof (init_keeps_the_callers_set _ _ _ _ _ _ _ _ Hrun) as Hshare.
  destruct (decide (set_at example_heap 1%positive = ∅)) as [Hemp|_].
  - exfalso. revert Hemp. vm_compute. discriminate.
  - exists self. split; [exact Hrun|]. by destruct Hshare.
Defined.

(** The modes on the tags a and b. *)
Lemma select_jobs_by_tag_modes_witness :
  select_jobs_by_tag example_heap {[1%positive; 2%positive; 3%positive]}
                     {["a"; "b"]} false
  ⊆ select_jobs_by_tag example_heap {[1%positive; 2%positive; 3%positive]}
                       {["a"; "b"]} true.
Proof.
  apply (select_jobs_by_tag_modes example_heap
           {[1%positive; 2%positive; 3%positive]} {["a"; "b"]} ∅ "a").
  set_solver.
Defined.

(** The set [get_jobs()] returned keeps the three jobs when the schedule
    is cleared and ticked. *)
Lemma handed_out_set_is_a_snapshot_witness :
  ∃ l h1, get_jobs (example_scheduler 0) None false example_heap = (Ok l, h1)
    ∧ set_at (run_calls [call_delete_jobs None false; call_exec_jobs true 0]
                        (example_scheduler 0) h1).2 l
      = set_at h1 l.
Proof.
  destruct (handed_out_set_is_a_snapshot (example_scheduler 0) example_heap)
    as [Hget _]; [by vm_compute|].
  eexists _, _. split; [rewrite get_jobs_eq; reflexivity|].
  apply (Hget None false). rewrite get_jobs_eq. reflexivity.
Defined.

(** Deleting and querying run no job. *)
Lemma only_exec_jobs_runs_jobs_witness :
  calls (run_calls [call_delete_job 2%positive; call_get_jobs None false]
                   (example_scheduler 0) example_heap).2
  = calls example_heap.
Proof.
  apply (only_exec_jobs_runs_jobs
           [call_delete_job 2%positive; call_get_jobs None false]).
  repeat constructor; intros; discriminate.
Defined.

(** [once] on a duration is [cyclic] with one attempt. *)
Lemma once_is_the_discipline_method_witness :
  once (example_scheduler 0) (PyTimedelta 5) "callback" ∅ 1%Qc example_heap
  = cyclic (example_scheduler 0) (PyTimedelta 5) "callback"
           (MkKwargs 1 ∅ 1%Qc true None None) example_heap.
Proof.
  assert (Honce : check_type TimingOnceUnion (PyTimedelta 5) = true)
    by reflexivity.
  assert (Hcyclic : check_type TimingCyclic (PyTimedelta 5) = true)
    by reflexivity.
  exact (once_is_the_discipline_method (example_scheduler 0) (PyTimedelta 5)
           "callback" ∅ 1%Qc example_heap Honce Hcyclic).
Defined.

(** Job 2, deleted, is not dispatched by a forced tick. *)
Lemma deleted_job_is_never_run_witness :
  dispatch_count (example_scheduler 0) 2%positive [(true, 0)]
    (delete_job (example_scheduler 0) 2%positive example_heap).2
  = 0%nat.
Proof.
  apply (deleted_job_is_never_run (example_scheduler 0) 2%positive example_heap
           (delete_job (example_scheduler 0) 2%positive example_heap).2
           [(true, 0)]).
  rewrite delete_job_eq. rewrite decide_True; [done|by vm_compute].
Defined.

End more_examples.
